(** * django-baseclasses: [baseclasses/models.py]

    A shallow embedding of the abstract base models of
    [baseclasses/models.py] together with the properties of their
    pre-save handlers, their managers (filtered views), the ordered
    neighbour lookup [next_or_prev_in_order] and the ancestor walk
    [get_hierarchy].

    Conventions.
    - A [datetime] is an instant on the integer time line ([Z], in
      microseconds); a [date] is a day number.  [date_of] maps an instant
      to its day, as [DateField] does with a [datetime] it is handed.
    - Python's [None] for a nullable attribute is [None] of [option].
    - The handlers mutate the instance they receive; here they return the
      updated instance.
    - Code that reads the clock, or that can raise, lives in the monad [M]:
      the world carries the successive readings of the clock. *)

From Stdlib Require Import ZArith List String Ascii Bool Lia Sorted.
Import ListNotations.

Local Open Scope string_scope.
Local Open Scope list_scope.
Local Open Scope Z_scope.

(** ** Exceptions, results and the clock *)

Inductive exn : Type :=
| IndexError
| TypeError
| AttributeError
| DoesNotExist
| FieldError
| RuntimeError.

Inductive result (A : Type) : Type :=
| Ok (a : A)
| Raise (e : exn).

Arguments Ok {A} a.
Arguments Raise {A} e.

(** The world: [clock w n] is what the [n]-th reading of the system clock
    returns, [reads w] counts the readings made so far. *)
Record World : Type := mkWorld {
  clock : nat -> Z;
  reads : nat
}.

Definition tick (w : World) : World :=
  {| clock := clock w; reads := S (reads w) |}.

Definition current (w : World) : Z := clock w (reads w).

Definition M (A : Type) : Type := World -> result A * World.

Definition ret {A} (a : A) : M A := fun w => (Ok a, w).

Definition bind {A B} (m : M A) (k : A -> M B) : M B :=
  fun w =>
    match m w with
    | (Ok a, w') => k a w'
    | (Raise e, w') => (Raise e, w')
    end.

Definition raise {A} (e : exn) : M A := fun w => (Raise e, w).

Notation "x <- m ;; k" := (bind m (fun x => k))
  (at level 61, m at next level, right associativity).

(** [try: body except IndexError: handler] *)
Definition try_except_IndexError {A} (body handler : M A) : M A :=
  fun w =>
    match body w with
    | (Raise IndexError, w') => handler w'
    | r => r
    end.

Definition ticks_per_day : Z := 86400000000.

Definition date_of (t : Z) : Z := t / ticks_per_day.

(** [datetime.datetime.now()] *)
Definition datetime_now : M Z := fun w => (Ok (current w), tick w).

(** [datetime.date.today()] *)
Definition date_today : M Z := fun w => (Ok (date_of (current w)), tick w).

(** [seq[0]] *)
Definition index0 {A} (l : list A) : M A :=
  match l with
  | [] => raise IndexError
  | x :: _ => ret x
  end.

(** ** Classes *)

(** The abstract models this module declares. *)
Inductive Base : Type :=
| DateAuditModel
| BaseContentModel
| BaseNamedModel
| BaseSortedModel
| BaseContentModelWithImages
| BaseHierarchyModel.

Definition Base_eqb (a b : Base) : bool :=
  match a, b with
  | DateAuditModel, DateAuditModel
  | BaseContentModel, BaseContentModel
  | BaseNamedModel, BaseNamedModel
  | BaseSortedModel, BaseSortedModel
  | BaseContentModelWithImages, BaseContentModelWithImages
  | BaseHierarchyModel, BaseHierarchyModel => true
  | _, _ => false
  end.

(** The class itself followed by its ancestors in this module:
    [BaseContentModel(DateAuditModel)],
    [BaseContentModelWithImages(BaseContentModel)]. *)
Definition mro (b : Base) : list Base :=
  match b with
  | BaseContentModel => [BaseContentModel; DateAuditModel]
  | BaseContentModelWithImages =>
      [BaseContentModelWithImages; BaseContentModel; DateAuditModel]
  | _ => [b]
  end.

(** A concrete (table-backed) model declared by an application: its name
    and the abstract models of this module it lists as bases.  Only
    concrete models have rows, so only they have instances to save. *)
Record Model : Type := mkModel {
  model_name : string;
  model_bases : list Base
}.

(** A class object: one of this module's abstract models or a concrete
    model. *)
Inductive Class : Type :=
| Abstract (b : Base)
| Concrete (m : Model).

(** Identity of class objects. *)
Definition Class_is (a b : Class) : bool :=
  match a, b with
  | Abstract x, Abstract y => Base_eqb x y
  | Concrete m, Concrete n => String.eqb (model_name m) (model_name n)
  | _, _ => false
  end.

Definition issubclass (m : Model) (b : Base) : bool :=
  existsb (fun d => existsb (Base_eqb b) (mro d)) (model_bases m).

(** ** Instances and the store *)

Record Instance : Type := mkInstance {
  cls : Model;
  pk : option Z;
  creation_date : option Z;      (* DateAuditModel, an instant *)
  last_updated : option Z;       (* DateAuditModel, an instant *)
  publication_date : option Z;   (* BaseContentModel, a day *)
  is_live : bool;                (* BaseContentModel *)
  is_featured : bool;            (* BaseContentModel *)
  sort_order : option Z;         (* BaseSortedModel *)
  parent : option Z              (* BaseHierarchyModel, the parent's pk *)
}.

Definition isinstance (i : Instance) (b : Base) : bool :=
  issubclass (cls i) b.

Definition set_creation_date (i : Instance) (v : option Z) : Instance :=
  mkInstance (cls i) (pk i) v (last_updated i) (publication_date i)
             (is_live i) (is_featured i) (sort_order i) (parent i).

Definition set_last_updated (i : Instance) (v : option Z) : Instance :=
  mkInstance (cls i) (pk i) (creation_date i) v (publication_date i)
             (is_live i) (is_featured i) (sort_order i) (parent i).

Definition set_publication_date_attr (i : Instance) (v : option Z) : Instance :=
  mkInstance (cls i) (pk i) (creation_date i) (last_updated i) v
             (is_live i) (is_featured i) (sort_order i) (parent i).

Definition set_sort_order_attr (i : Instance) (v : option Z) : Instance :=
  mkInstance (cls i) (pk i) (creation_date i) (last_updated i)
             (publication_date i) (is_live i) (is_featured i) v (parent i).

Definition set_parent (i : Instance) (v : option Z) : Instance :=
  mkInstance (cls i) (pk i) (creation_date i) (last_updated i)
             (publication_date i) (is_live i) (is_featured i)
             (sort_order i) v.

Definition set_pk (i : Instance) (v : option Z) : Instance :=
  mkInstance (cls i) v (creation_date i) (last_updated i)
             (publication_date i) (is_live i) (is_featured i)
             (sort_order i) (parent i).

(** A row of the related image table: its own key and the key of the
    record it belongs to. *)
Record Image : Type := mkImage {
  image_pk : Z;
  image_owner : Z
}.

(** How the application declares the related image model.  Either way
    the instances get the [image_set] accessor the class needs; the name
    under which the relation can be queried is the [related_name] when
    there is one, and the lower-cased class name otherwise. *)
Inductive ImageDeclaration : Type :=
| related_name_image_set   (* ForeignKey(..., related_name='image_set') *)
| model_named_Image.       (* class Image, ForeignKey without related_name *)

Definition related_query_name (d : ImageDeclaration) : string :=
  match d with
  | related_name_image_set => "image_set"
  | model_named_Image => "image"
  end.

(** The table of one concrete model, in the order in which the default
    manager yields it, the table of its related images and the way the
    image model is declared. *)
Record Store : Type := mkStoreOf {
  rows : list Instance;
  images : list Image;
  image_declaration : ImageDeclaration
}.

(** A store whose image model is a class named [Image]. *)
Abbreviation mkStore r i := (mkStoreOf r i model_named_Image).

Definition opt_is (o : option Z) (k : Z) : bool :=
  match o with
  | Some v => v =? k
  | None => false
  end.

(** Truth value of an optional integer: [None] and [0] are false. *)
Definition truthy (o : option Z) : bool :=
  match o with
  | Some v => negb (v =? 0)
  | None => false
  end.

(** [instance.children.all().count()]: rows whose [parent] is [k]. *)
Definition children_count (s : Store) (k : Z) : nat :=
  List.length (filter (fun r => opt_is (parent r) k) (rows s)).

(** [self.parent]: the row the foreign key names. *)
Definition get_parent (s : Store) (self : Instance) : M (option Instance) :=
  match parent self with
  | None => ret None
  | Some p =>
      match find (fun r => opt_is (pk r) p) (rows s) with
      | Some r => ret (Some r)
      | None => raise DoesNotExist
      end
  end.

(** [a == b] on primary keys. *)
Definition pk_eq (a b : option Z) : bool :=
  match a, b with
  | Some x, Some y => x =? y
  | None, None => true
  | _, _ => false
  end.

(** [instance.parent == instance]: reading [instance.parent] fetches the
    row the foreign key names, and model instances compare by primary
    key. *)
Definition parent_is_self (s : Store) (instance : Instance) : M bool :=
  p <- get_parent s instance ;;
  match p with
  | Some par => ret (pk_eq (pk par) (pk instance))
  | None => ret false
  end.

(** ** Pre-save handlers *)

Definition date_set (s : Store) (instance : Instance) : M Instance :=
  if isinstance instance DateAuditModel then
    instance <-
      match creation_date instance with
      | None => now <- datetime_now ;; ret (set_creation_date instance (Some now))
      | Some _ => ret instance
      end ;;
    now <- datetime_now ;;
    ret (set_last_updated instance (Some now))
  else ret instance.

Definition set_publication_date (s : Store) (instance : Instance) : M Instance :=
  match publication_date instance with
  | None => today <- date_today ;; ret (set_publication_date_attr instance (Some today))
  | Some _ => ret instance
  end.

Definition set_sort_order (s : Store) (instance : Instance) : M Instance :=
  if isinstance instance BaseSortedModel then
    if truthy (sort_order instance) then ret instance
    else ret (set_sort_order_attr instance (Some 0))
  else ret instance.

(** [instance.pk and instance.children.all().count()] *)
Definition pk_and_children (s : Store) (instance : Instance) : bool :=
  match pk instance with
  | Some k => truthy (Some k) && negb (Nat.eqb (children_count s k) 0)
  | None => false
  end.

(** The right operand of [or] is evaluated only when the left one is
    false. *)
Definition check_tree (s : Store) (instance : Instance) : M Instance :=
  if isinstance instance BaseHierarchyModel then
    if pk_and_children s instance then ret (set_parent instance None)
    else
      is_self <- parent_is_self s instance ;;
      if is_self then ret (set_parent instance None) else ret instance
  else ret instance.

(** ** Signals

    The dispatcher keeps the receivers in connection order, each with the
    sender it was connected for ([None]: any sender).  [send] calls the
    receivers whose sender is [None] or is the very class object that
    sends; subclasses of a connected sender do not match. *)

Record Receiver : Type := mkReceiver {
  receiver_name : string;
  receiver_sender : option Class;
  receiver_call : Store -> Instance -> M Instance
}.

Definition Signal : Type := list Receiver.

Definition sender_is (a b : option Class) : bool :=
  match a, b with
  | None, None => true
  | Some x, Some y => Class_is x y
  | _, _ => false
  end.

(** [signal.connect(receiver, sender=...)]: a receiver already connected
    for the same sender is not connected twice. *)
Definition connect (sig : Signal) (name : string)
           (f : Store -> Instance -> M Instance) (sender : option Class) : Signal :=
  if existsb (fun r => String.eqb (receiver_name r) name
                       && sender_is (receiver_sender r) sender) sig
  then sig
  else sig ++ [mkReceiver name sender f].

Definition live_receivers (sig : Signal) (sender : Class) : list Receiver :=
  filter (fun r => match receiver_sender r with
                   | None => true
                   | Some c => Class_is c sender
                   end) sig.

Fixpoint call_receivers (rs : list Receiver) (s : Store) (instance : Instance)
  : M Instance :=
  match rs with
  | [] => ret instance
  | r :: rs' =>
      instance <- receiver_call r s instance ;;
      call_receivers rs' s instance
  end.

Definition send (sig : Signal) (sender : Class) (s : Store) (instance : Instance)
  : M Instance :=
  call_receivers (live_receivers sig sender) s instance.

(** The module's four [models.signals.pre_save.connect(...)] statements,
    in the order in which they are executed at import. *)
Definition pre_save : Signal :=
  let sig := connect [] "date_set" date_set None in
  let sig := connect sig "set_publication_date" set_publication_date
                     (Some (Abstract BaseContentModel)) in
  let sig := connect sig "set_sort_order" set_sort_order None in
  connect sig "check_tree" check_tree None.

(** What [Model.save] does before it writes: it sends [pre_save] with the
    instance's own class as sender. *)
Definition pre_save_send (s : Store) (instance : Instance) : M Instance :=
  send pre_save (Concrete (cls instance)) s instance.

(** Writing the row: an existing key is updated in place, a new key is
    appended, a missing key is allocated. *)
Definition fresh_pk (l : list Instance) : Z :=
  1 + fold_right (fun r acc => match pk r with
                               | Some k => Z.max k acc
                               | None => acc
                               end) 0 l.

Definition write_row (l : list Instance) (instance : Instance) : list Instance * Instance :=
  match pk instance with
  | Some k =>
      if existsb (fun r => opt_is (pk r) k) l
      then (map (fun r => if opt_is (pk r) k then instance else r) l, instance)
      else (l ++ [instance], instance)
  | None =>
      let i' := set_pk instance (Some (fresh_pk l)) in
      (l ++ [i'], i')
  end.

(** [instance.save()] *)
Definition save (s : Store) (instance : Instance) : M (Store * Instance) :=
  instance <- pre_save_send s instance ;;
  let '(l, i') := write_row (rows s) instance in
  ret (mkStoreOf l (images s) (image_declaration s), i').

(** ** Managers *)

Inductive Manager : Type :=
| DefaultManager               (* models.Manager *)
| LiveManager
| FeaturedManager
| FeaturedManagerWithImages.

Definition Model_eq_dec (a b : Model) : {a = b} + {a <> b}.
Proof.
  decide equality.
  - apply (list_eq_dec (fun x y : Base => ltac:(decide equality) : {x = y} + {x <> y})).
  - apply string_dec.
Defined.

Definition Instance_eq_dec (a b : Instance) : {a = b} + {a <> b}.
Proof.
  decide equality;
    try apply Bool.bool_dec;
    try apply Model_eq_dec;
    decide equality; apply Z.eq_dec.
Defined.

(** [publication_date__lte=...] against a day; a null column never
    compares. *)
Definition lte (o : option Z) (d : Z) : bool :=
  match o with
  | Some v => v <=? d
  | None => false
  end.

(** The rows of the image table that belong to [r]. *)
Definition images_of (s : Store) (r : Instance) : list Image :=
  match pk r with
  | Some k => filter (fun im => image_owner im =? k) (images s)
  | None => []
  end.

(** [.filter(image__isnull=False)]: the join with the image table, one
    result row per related image. *)
Definition filter_image_notnull (s : Store) (qs : list Instance) : list Instance :=
  flat_map (fun r => map (fun _ => r) (images_of s r)) qs.

(** [.distinct()] *)
Definition distinct (qs : list Instance) : list Instance :=
  nodup Instance_eq_dec qs.

Definition Manager_get_query_set (s : Store) : M (list Instance) :=
  ret (rows s).

Definition LiveManager_get_query_set (s : Store) : M (list Instance) :=
  qs <- Manager_get_query_set s ;;
  now <- datetime_now ;;
  ret (filter (fun r => Bool.eqb (is_live r) true
                        && lte (publication_date r) (date_of now)) qs).

Definition FeaturedManager_get_query_set (s : Store) : M (list Instance) :=
  qs <- LiveManager_get_query_set s ;;
  ret (filter (fun r => Bool.eqb (is_featured r) true) qs).

(** The keyword [image] has to name the relation: [filter] raises
    [FieldError] when the relation is queried under another name. *)
Definition FeaturedManagerWithImages_get_query_set (s : Store) : M (list Instance) :=
  qs <- FeaturedManager_get_query_set s ;;
  if String.eqb (related_query_name (image_declaration s)) "image"
  then ret (distinct (filter_image_notnull s qs))
  else raise FieldError.

(** [self.get_query_set()], dispatched on the class of [self]. *)
Definition get_query_set (self : Manager) (s : Store) : M (list Instance) :=
  match self with
  | DefaultManager => Manager_get_query_set s
  | LiveManager => LiveManager_get_query_set s
  | FeaturedManager => FeaturedManager_get_query_set s
  | FeaturedManagerWithImages => FeaturedManagerWithImages_get_query_set s
  end.

(** [FeaturedManager.get_first], inherited by
    [FeaturedManagerWithImages]; the other managers have no such method. *)
Definition get_first (self : Manager) (s : Store) : M Instance :=
  match self with
  | FeaturedManager | FeaturedManagerWithImages =>
      try_except_IndexError
        (qs <- get_query_set self s ;; index0 qs)
        (qs <- LiveManager_get_query_set s ;; index0 qs)
  | _ => raise AttributeError
  end.

(** ** BaseHierarchyModel.get_hierarchy *)

(** [depth] is the number of nested calls the interpreter still allows;
    at [0] the call fails with "maximum recursion depth exceeded". *)
Fixpoint get_hierarchy (depth : nat) (s : Store) (self : Instance)
         (include_self : bool) : M (list Instance) :=
  match depth with
  | O => raise RuntimeError
  | S depth' =>
      p <- get_parent s self ;;
      match p with
      | Some par =>
          h <- get_hierarchy depth' s par true ;;
          ret (h ++ (if include_self then [self] else []))
      | None => ret (if include_self then [self] else [])
      end
  end.

(** The chain the walk is meant to produce: [chain s r l] when [l] lists
    the ancestors of [r] from the root down to [r] itself. *)
Inductive chain (s : Store) : Instance -> list Instance -> Prop :=
| chain_root r : parent r = None -> chain s r [r]
| chain_child r p par l :
    parent r = Some p ->
    find (fun x => opt_is (pk x) p) (rows s) = Some par ->
    chain s par l ->
    chain s r (l ++ [r]).

(** ** Ordered neighbour lookup *)

(** [attr.split('__')] *)
Fixpoint split_dunder (attr : string) (cur : string) : list string :=
  match attr with
  | EmptyString => [cur]
  | String c attr' =>
      match attr' with
      | String c' rest =>
          if Ascii.eqb c "_" && Ascii.eqb c' "_"
          then cur :: split_dunder rest ""
          else split_dunder attr' (cur ++ String c "")
      | EmptyString => split_dunder attr' (cur ++ String c "")
      end
  end.

(** Objects with attributes.  [getattr] reads an attribute; [column] is
    the value the database compares when the object is a column value.
    The database resolves a lookup path on a row the way
    [get_model_attr] resolves it on the instance. *)
Class Attrs (Obj : Type) : Type := {
  getattr : Obj -> string -> Obj;
  column : Obj -> Z
}.

Section NeighbourLookup.

Context {Obj : Type} `{Attrs Obj}.

Definition get_model_attr (instance : Obj) (attr : string) : Obj :=
  fold_left getattr (split_dunder attr "") instance.

(** A query set on a manager of a model: the declared [Meta.ordering] of
    the model, by which the query is ordered, and the rows of the query in
    the order in which the table yields rows that the ordering does not
    separate. *)
Record QuerySet : Type := mkQuerySet {
  model_ordering : list string;
  qs_rows : list Obj
}.

(** The [qs] argument: absent, a manager, or a query set.  A manager is
    always true; a query set is true when it has rows. *)
Inductive QsArg : Type :=
| qs_None
| qs_Manager (q : QuerySet)
| qs_QuerySet (q : QuerySet).

Definition not_qs (qs : QsArg) : bool :=
  match qs with
  | qs_None => true
  | qs_Manager _ => false
  | qs_QuerySet q => match qs_rows q with [] => true | _ => false end
  end.

Definition qs_of (qs : QsArg) (default : QuerySet) : QuerySet :=
  match qs with
  | qs_None => default
  | qs_Manager q | qs_QuerySet q => q
  end.

Inductive Lookup : Type := exact | gt | lt.

(** A [Q] object: keyword conditions (a field, a lookup and the value to
    compare with), all of which must hold, or the [|] of two [Q]s. *)
Inductive Q : Type :=
| Q_kwargs (kw : list (string * Lookup * Obj))
| Q_or (a b : Q).

Definition holds (row : Obj) (c : string * Lookup * Obj) : bool :=
  let '(f, lk, v) := c in
  let x := column (get_model_attr row f) in
  let y := column v in
  match lk with
  | exact => x =? y
  | gt => y <? x
  | lt => x <? y
  end.

Fixpoint Q_matches (q : Q) (row : Obj) : bool :=
  match q with
  | Q_kwargs kw => forallb (holds row) kw
  | Q_or a b => Q_matches a row || Q_matches b row
  end.

(** [reduce(models.Q.__or__, q_list)] *)
Definition reduce_or (q_list : list Q) : result Q :=
  match q_list with
  | [] => Raise TypeError
  | q :: rest => Ok (fold_left Q_or rest q)
  end.

(** [lookup == 'gt' and 'lt' or 'gt'] *)
Definition flipped (lookup : Lookup) : Lookup :=
  match lookup with
  | gt => lt
  | _ => gt
  end.

(** The [for field in (ordering + ['pk',])] loop, carrying [prev_fields]
    and [q_list]. *)
Fixpoint build_q_list (instance : Obj) (lookup : Lookup) (fields : list string)
         (prev_fields : list string) (q_list : list Q) : result (list Q) :=
  match fields with
  | [] => Ok q_list
  | field :: rest =>
      match field with
      | EmptyString => Raise IndexError
      | String c tail =>
          let '(this_lookup, field) :=
            if Ascii.eqb c "-" then (flipped lookup, tail) else (lookup, field) in
          let q_kwargs :=
            map (fun f => (f, exact, get_model_attr instance f)) prev_fields
            ++ [(field, this_lookup, get_model_attr instance field)] in
          build_q_list instance lookup rest
                       (prev_fields ++ [field]) (q_list ++ [Q_kwargs q_kwargs])
      end
  end.

(** *** The ORDER BY of a query *)

(** A declared ordering entry: the field it names and whether it is
    descending. *)
Definition field_of (entry : string) : string :=
  match entry with
  | String c tail => if Ascii.eqb c "-" then tail else entry
  | EmptyString => entry
  end.

Definition descending (entry : string) : bool :=
  match entry with
  | String c _ => Ascii.eqb c "-"
  | EmptyString => false
  end.

Definition key (r : Obj) (f : string) : Z := column (get_model_attr r f).

(** [precedes entries a b]: [a] comes strictly before [b] in the
    lexicographic order of the entries, each in its declared direction. *)
Fixpoint precedes (entries : list string) (a b : Obj) : bool :=
  match entries with
  | [] => false
  | e :: rest =>
      let x := key a (field_of e) in
      let y := key b (field_of e) in
      if x =? y then precedes rest a b
      else if descending e then y <? x else x <? y
  end.

(** Puts [x] after the rows that come strictly before it. *)
Fixpoint insert_row (before : Obj -> Obj -> bool) (x : Obj) (l : list Obj)
  : list Obj :=
  match l with
  | [] => [x]
  | y :: l' => if before y x then y :: insert_row before x l' else x :: y :: l'
  end.

(** The rows as the query yields them: ordered by the declared entries,
    every entry the other way round after [reverse()].  Rows that the
    entries do not separate come in the order of [rows], in either
    direction; without entries the order is that of [rows]. *)
Definition order_by (ordering : list string) (reversed : bool)
           (rows : list Obj) : list Obj :=
  fold_right
    (insert_row (fun a b => if reversed then precedes ordering b a
                            else precedes ordering a b))
    [] rows.

(** [objects] is [instance.__class__.objects]. *)
Definition next_or_prev_in_order (objects : QuerySet) (instance : Obj)
           (prev : bool) (qs : QsArg) : result (option Obj) :=
  let qs := if not_qs qs then objects else qs_of qs objects in
  let '(reversed, lookup) := if prev then (true, lt) else (false, gt) in
  let ordering := model_ordering qs in
  match build_q_list instance lookup (ordering ++ ["pk"]) [] [] with
  | Raise e => Raise e
  | Ok q_list =>
      match reduce_or q_list with
      | Raise e => Raise e
      | Ok q =>
          match filter (Q_matches q) (order_by ordering reversed (qs_rows qs)) with
          | x :: _ => Ok (Some x)
          | [] => Ok None
          end
      end
  end.

(** *** The order the lookup is meant to follow *)

(** The total order of a view: the declared ordering, then ascending
    primary key. *)
Definition total_order (ordering : list string) (a b : Obj) : Prop :=
  precedes (ordering ++ ["pk"]) a b = true.

(** The candidate condition for the prefix of length [k]: every earlier
    field equals the record's value and field [k] is strictly beyond it,
    greater for [next] and less for [prev], the other way round when the
    field is declared descending. *)
Definition candidate (entries : list string) (instance : Obj) (prev : bool)
           (k : nat) (row : Obj) : bool :=
  forallb (fun e => key row (field_of e) =? key instance (field_of e))
          (firstn k entries)
  && match nth_error entries k with
     | Some e =>
         let x := key row (field_of e) in
         let y := key instance (field_of e) in
         if xorb prev (descending e) then x <? y else y <? x
     | None => false
     end.

(** The first row, in the direction asked for, that satisfies one of the
    candidate conditions. *)
Definition first_candidate (ordering : list string) (instance : Obj)
           (prev : bool) (view : list Obj) : option Obj :=
  let entries := ordering ++ ["pk"] in
  hd_error
    (filter (fun row => existsb (fun k => candidate entries instance prev k row)
                                (seq 0 (List.length entries)))
            (order_by ordering prev view)).

End NeighbourLookup.

Arguments QuerySet Obj : clear implicits.
Arguments QsArg Obj : clear implicits.
Arguments Q Obj : clear implicits.

(** ** Python objects for the models of this module *)

(** What [getattr] can return on a model instance: a column value, [None]
    or another instance. *)
Inductive PyObj : Type :=
| PyInt (z : Z)
| PyNone
| PyInstance (i : Instance).

Definition of_option (o : option Z) : PyObj :=
  match o with
  | Some z => PyInt z
  | None => PyNone
  end.

Definition PyObj_getattr (o : PyObj) (name : string) : PyObj :=
  match o with
  | PyInstance i =>
      if String.eqb name "pk" then of_option (pk i)
      else if String.eqb name "id" then of_option (pk i)
      else if String.eqb name "creation_date" then of_option (creation_date i)
      else if String.eqb name "last_updated" then of_option (last_updated i)
      else if String.eqb name "publication_date" then of_option (publication_date i)
      else if String.eqb name "is_live" then PyInt (Z.b2z (is_live i))
      else if String.eqb name "is_featured" then PyInt (Z.b2z (is_featured i))
      else if String.eqb name "sort_order" then of_option (sort_order i)
      else if String.eqb name "parent_id" then of_option (parent i)
      else PyNone
  | _ => PyNone
  end.

(** Column values are compared as integers; the rows this instance is
    used with have no null in an ordering column. *)
Definition PyObj_column (o : PyObj) : Z :=
  match o with
  | PyInt z => z
  | _ => 0
  end.

#[export] Instance PyObj_Attrs : Attrs PyObj :=
  {| getattr := PyObj_getattr; column := PyObj_column |}.

(** [Meta.ordering] of the abstract models. *)
Definition Meta_ordering (b : Base) : list string :=
  match b with
  | DateAuditModel => ["-creation_date"]
  | BaseContentModel | BaseContentModelWithImages =>
      ["-publication_date"; "-creation_date"]
  | BaseNamedModel => ["name"]
  | BaseSortedModel => ["sort_order"; "id"]
  | BaseHierarchyModel => []
  end.

(** ** Sample data *)

Definition Article : Model := mkModel "Article" [BaseContentModel].
Definition Category : Model := mkModel "Category" [BaseHierarchyModel].
Definition Slide : Model := mkModel "Slide" [BaseSortedModel].

(** A clock that advances by one second per reading, starting at noon of
    day 20000. *)
Definition sample_world : World :=
  mkWorld (fun n => Z.of_nat n * 1000000 + 1728043200000000) 0.

Definition article (k : Z) (pub : option Z) (live featured : bool) : Instance :=
  mkInstance Article (Some k) (Some (19000 * ticks_per_day + k)) (Some (19000 * ticks_per_day + k))
             pub live featured None None.

Definition category (k : option Z) (par : option Z) : Instance :=
  mkInstance Category k None None None false false None par.

Definition slide (k : Z) (order : Z) : Instance :=
  mkInstance Slide (Some k) None None None false false (Some order) None.

Definition slides : QuerySet PyObj :=
  mkQuerySet (Meta_ordering BaseSortedModel)
             (map PyInstance [slide 1 10; slide 2 10; slide 3 20]).

(** Three notes created at the same instant, and three categories of a
    model without declared ordering. *)
Definition Note : Model := mkModel "Note" [DateAuditModel].

Definition note (k : Z) : Instance :=
  mkInstance Note (Some k) (Some 1600000000000000) (Some 1600000000000000)
             None false false None None.

Definition notes : QuerySet PyObj :=
  mkQuerySet (Meta_ordering DateAuditModel)
             (map PyInstance [note 1; note 2; note 3]).

Definition categories : QuerySet PyObj :=
  mkQuerySet (Meta_ordering BaseHierarchyModel)
             (map PyInstance [category (Some 1) None; category (Some 2) None;
                              category (Some 3) None]).

Definition articles : QuerySet PyObj :=
  mkQuerySet (Meta_ordering BaseContentModel)
             (map PyInstance [article 3 (Some 19002) true false;
                              article 2 (Some 19001) true false;
                              article 1 (Some 19000) true false]).

(** ** Methods of the abstract models *)

(** A computation that does not read the clock. *)
Definition lift {A} (r : result A) : M A := fun w => (r, w).

Section NeighbourMethods.

Context {Obj : Type} `{Attrs Obj}.

(** [DateAuditModel.prev] and [DateAuditModel.next]; [objects] is
    [self.__class__.objects]. *)
Definition DateAuditModel_prev (objects : QuerySet Obj) (self : Obj)
  : result (option Obj) :=
  next_or_prev_in_order objects self true (qs_Manager objects).

Definition DateAuditModel_next (objects : QuerySet Obj) (self : Obj)
  : result (option Obj) :=
  next_or_prev_in_order objects self false (qs_Manager objects).

(** [qs or self.__class__.objects] *)
Definition qs_or_objects (qs : QsArg Obj) (objects : QuerySet Obj) : QsArg Obj :=
  if not_qs qs then qs_Manager objects else qs.

(** [BaseContentModel.prev(qs=None)] and [BaseContentModel.next(qs=None)] *)
Definition BaseContentModel_prev (objects : QuerySet Obj) (self : Obj)
           (qs : QsArg Obj) : result (option Obj) :=
  next_or_prev_in_order objects self true (qs_or_objects qs objects).

Definition BaseContentModel_next (objects : QuerySet Obj) (self : Obj)
           (qs : QsArg Obj) : result (option Obj) :=
  next_or_prev_in_order objects self false (qs_or_objects qs objects).

End NeighbourMethods.

(** The query set a manager of a concrete model stands for: the rows its
    [get_query_set] yields, as objects; [ordering] is the [Meta.ordering]
    of the concrete model. *)
Definition manager_query_set (ordering : list string) (m : Manager) (s : Store)
  : M (QuerySet PyObj) :=
  qs <- get_query_set m s ;;
  ret (mkQuerySet ordering (map PyInstance qs)).


(** The lookup on one of the managers of the class of [self]; the manager
    is queried once, when the lookup reverses or filters it. *)
Definition neighbour_in_manager (ordering : list string) (m : Manager)
           (s : Store) (self : Instance) (prev : bool) : M (option PyObj) :=
  q <- manager_query_set ordering m s ;;
  lift (next_or_prev_in_order
          (mkQuerySet ordering (map PyInstance (rows s)))
          (PyInstance self) prev (qs_Manager q)).

Definition BaseContentModel_prev_live (ordering : list string) (s : Store)
           (self : Instance) : M (option PyObj) :=
  neighbour_in_manager ordering LiveManager s self true.

Definition BaseContentModel_next_live (ordering : list string) (s : Store)
           (self : Instance) : M (option PyObj) :=
  neighbour_in_manager ordering LiveManager s self false.



(** [BaseContentModelWithImages.primary_image] *)
Definition primary_image (s : Store) (self : Instance) : M (option Image) :=
  try_except_IndexError
    (im <- index0 (images_of s self) ;; ret (Some im))
    (ret None).

(** [BaseContentModelWithImages.image_count] *)
Definition image_count (s : Store) (self : Instance) : nat :=
  List.length (images_of s self).

(** ** Vocabulary for the properties *)

(** [attr] has no ["__"] in it. *)
Fixpoint no_dunder (attr : string) : bool :=
  match attr with
  | EmptyString => true
  | String c attr' =>
      match attr' with
      | String c' _ => negb (Ascii.eqb c "_" && Ascii.eqb c' "_") && no_dunder attr'
      | EmptyString => true
      end
  end.

(** The parent [check_tree] leaves on a hierarchical record when it
    returns. *)
Definition parent_after (s : Store) (i : Instance) : option Z :=
  if pk_and_children s i then None
  else match parent i with
       | Some p => if opt_is (pk i) p then None else Some p
       | None => None
       end.

(** The parent key of a hierarchical record names no row. *)
Definition dangling_parent (s : Store) (i : Instance) : Prop :=
  isinstance i BaseHierarchyModel = true
  /\ exists p, parent i = Some p
               /\ find (fun r => opt_is (pk r) p) (rows s) = None.

(** A two-level forest: every parent a row names is a row of the table,
    and is itself without parent. *)
Definition two_level (l : list Instance) : Prop :=
  forall r p,
    In r l -> parent r = Some p ->
    (exists q, In q l /\ pk q = Some p)
    /\ (forall q, In q l -> pk q = Some p -> parent q = None).

(** A clock that never runs backwards. *)
Definition monotone (w : World) : Prop :=
  forall n, clock w n <= clock w (S n).

(** * Properties *)

(** ** Keys, rows and the table *)

Lemma opt_is_true (o : option Z) (k : Z) : opt_is o k = true <-> o = Some k.
Proof.
  unfold opt_is. destruct o as [v|]; split; intros Hk; try discriminate.
  - apply Z.eqb_eq in Hk. subst. reflexivity.
  - injection Hk as ->. apply Z.eqb_refl.
Qed.

Lemma opt_is_false (o : option Z) (k : Z) : opt_is o k = false <-> o <> Some k.
Proof.
  rewrite <- opt_is_true. destruct (opt_is o k); split; congruence.
Qed.

Lemma fresh_pk_above (l : list Instance) (q : Instance) (k : Z) :
  In q l -> pk q = Some k -> k < fresh_pk l.
Proof.
  unfold fresh_pk. induction l as [|r l IH]; cbn [fold_right In]; [contradiction|].
  intros [-> | Hin] Hk.
  - rewrite Hk. lia.
  - specialize (IH Hin Hk). destruct (pk r); lia.
Qed.

Lemma children_count_pos (s : Store) (r : Instance) (k : Z) :
  In r (rows s) -> parent r = Some k -> children_count s k <> 0%nat.
Proof.
  intros Hin Hp. unfold children_count.
  assert (Hf : In r (filter (fun r => opt_is (parent r) k) (rows s)))
    by (apply filter_In; split; [exact Hin | apply opt_is_true; exact Hp]).
  destruct (filter _ (rows s)); [contradiction | discriminate].
Qed.

Lemma find_pk_in (l : list Instance) (par : Instance) (p : Z) :
  find (fun x => opt_is (pk x) p) l = Some par ->
  In par l /\ pk par = Some p.
Proof.
  intros Hf. apply find_some in Hf. destruct Hf as [Hin Hk].
  split; [exact Hin | apply opt_is_true; exact Hk].
Qed.

Lemma find_pk_some (l : list Instance) (q : Instance) (p : Z) :
  In q l -> pk q = Some p ->
  exists par, find (fun x => opt_is (pk x) p) l = Some par
              /\ In par l /\ pk par = Some p.
Proof.
  intros Hq Hqk.
  destruct (find (fun x => opt_is (pk x) p) l) as [par|] eqn:Hf.
  - exists par. split; [reflexivity | apply find_pk_in; exact Hf].
  - pose proof (find_none _ _ Hf q Hq) as Hn. simpl in Hn.
    apply opt_is_false in Hn. contradiction.
Qed.

(** What [write_row] leaves in the table. *)
Lemma write_row_rows (l l' : list Instance) (i i' : Instance) :
  write_row l i = (l', i') ->
  parent i' = parent i
  /\ pk i' = match pk i with
             | Some k => Some k
             | None => Some (fresh_pk l)
             end
  /\ In i' l'
  /\ (forall x, In x l' -> x = i' \/ (In x l /\ pk x <> pk i'))
  /\ (forall x, In x l -> pk x <> pk i' -> In x l').
Proof.
  unfold write_row. destruct (pk i) as [k|] eqn:Hk.
  - destruct (existsb _ l) eqn:Hex; intros Hw; injection Hw as <- <-;
      rewrite Hk; (split; [reflexivity|]); (split; [reflexivity|]).
    + apply existsb_exists in Hex. destruct Hex as (x & Hx & Hxk).
      split; [|split].
      * apply in_map_iff. exists x. rewrite Hxk. split; [reflexivity | exact Hx].
      * intros y Hy. apply in_map_iff in Hy. destruct Hy as (z & Hz & Hin).
        destruct (opt_is (pk z) k) eqn:Hzk; [left; congruence|].
        right. subst y. split; [exact Hin | apply opt_is_false; exact Hzk].
      * intros y Hy Hne. apply in_map_iff. exists y.
        apply opt_is_false in Hne. rewrite Hne. split; [reflexivity | exact Hy].
    + split; [|split].
      * apply in_or_app. right. left. reflexivity.
      * intros y Hy. apply in_app_or in Hy. destruct Hy as [Hy | [<- | []]];
          [right | left; reflexivity].
        split; [exact Hy|]. apply opt_is_false.
        destruct (opt_is (pk y) k) eqn:Hyk; [|reflexivity].
        assert (Hc : existsb (fun r => opt_is (pk r) k) l = true)
          by (apply existsb_exists; exists y; split; assumption).
        congruence.
      * intros y Hy _. apply in_or_app. left. exact Hy.
  - intros Hw. injection Hw as <- <-. simpl.
    split; [reflexivity|]. split; [reflexivity|]. split; [|split].
    + apply in_or_app. right. left. reflexivity.
    + intros y Hy. apply in_app_or in Hy. destruct Hy as [Hy | [<- | []]];
        [right | left; reflexivity].
      split; [exact Hy|]. intros Hc.
      pose proof (fresh_pk_above l y (fresh_pk l) Hy Hc). lia.
    + intros y Hy _. apply in_or_app. left. exact Hy.
Qed.

(** ** The pre-save handlers *)

(** The receivers [pre_save] reaches for an instance of a concrete model:
    the one connected for [BaseContentModel] is not among them. *)
Lemma live_receivers_pre_save (m : Model) :
  map receiver_name (live_receivers pre_save (Concrete m))
  = ["date_set"; "set_sort_order"; "check_tree"].
Proof. reflexivity. Qed.

Lemma pre_save_send_unfold (s : Store) (instance : Instance) :
  pre_save_send s instance
  = (i1 <- date_set s instance ;;
     i2 <- set_sort_order s i1 ;;
     i3 <- check_tree s i2 ;;
     ret i3).
Proof. reflexivity. Qed.

(** What each handler leaves alone. *)
Lemma date_set_run (s : Store) (i : Instance) (w : World) :
  exists i' w', date_set s i w = (Ok i', w')
                /\ cls i' = cls i /\ pk i' = pk i
                /\ is_live i' = is_live i /\ is_featured i' = is_featured i
                /\ publication_date i' = publication_date i
                /\ sort_order i' = sort_order i
                /\ parent i' = parent i.
Proof.
  unfold date_set.
  destruct (isinstance i DateAuditModel); [destruct (creation_date i)|];
    do 2 eexists; (split; [reflexivity|]); repeat split.
Qed.

Lemma set_sort_order_run (s : Store) (i : Instance) (w : World) :
  exists i', set_sort_order s i w = (Ok i', w)
             /\ cls i' = cls i /\ pk i' = pk i
             /\ is_live i' = is_live i /\ is_featured i' = is_featured i
             /\ creation_date i' = creation_date i
             /\ last_updated i' = last_updated i
             /\ publication_date i' = publication_date i
             /\ parent i' = parent i
             /\ sort_order i'
                = (if isinstance i BaseSortedModel
                   then if truthy (sort_order i) then sort_order i else Some 0
                   else sort_order i).
Proof.
  unfold set_sort_order.
  destruct (isinstance i BaseSortedModel); [destruct (truthy (sort_order i))|];
    eexists; (split; [reflexivity|]); repeat split.
Qed.

Lemma date_set_audited (s : Store) (i : Instance) (w : World) :
  isinstance i DateAuditModel = true ->
  date_set s i w
  = match creation_date i with
    | None =>
        (Ok (set_last_updated (set_creation_date i (Some (current w)))
                              (Some (current (tick w)))),
         tick (tick w))
    | Some _ => (Ok (set_last_updated i (Some (current w))), tick w)
    end.
Proof.
  intros Hi. unfold date_set. rewrite Hi.
  destruct (creation_date i); reflexivity.
Qed.

(** The two ways [check_tree] ends on a hierarchical record: it raises
    when it has to fetch a parent that is not there, and otherwise
    returns the record with [parent_after] as its parent. *)
Lemma check_tree_cases (s : Store) (i : Instance) (w : World) :
  isinstance i BaseHierarchyModel = true ->
  (check_tree s i w = (Raise DoesNotExist, w)
   /\ pk_and_children s i = false
   /\ exists p, parent i = Some p
                /\ find (fun r => opt_is (pk r) p) (rows s) = None)
  \/ (exists i', check_tree s i w = (Ok i', w)
                 /\ cls i' = cls i /\ pk i' = pk i
                 /\ is_live i' = is_live i /\ is_featured i' = is_featured i
                 /\ creation_date i' = creation_date i
                 /\ last_updated i' = last_updated i
                 /\ publication_date i' = publication_date i
                 /\ sort_order i' = sort_order i
                 /\ parent i' = parent_after s i
                 /\ (pk_and_children s i = true
                     \/ parent i = None
                     \/ exists p par,
                         parent i = Some p
                         /\ find (fun r => opt_is (pk r) p) (rows s) = Some par)).
Proof.
  intros Hi. unfold check_tree, parent_after. rewrite Hi.
  destruct (pk_and_children s i) eqn:Hc.
  - right. eexists. split; [reflexivity|].
    repeat (split; [reflexivity|]). left. reflexivity.
  - unfold parent_is_self, get_parent, bind.
    destruct (parent i) as [p|] eqn:Hp.
    + destruct (find _ (rows s)) as [par|] eqn:Hf.
      * right. destruct (find_pk_in _ _ _ Hf) as [_ Hpk].
        unfold ret at 1. rewrite Hpk.
        assert (He : pk_eq (Some p) (pk i) = opt_is (pk i) p).
        { unfold pk_eq, opt_is. destruct (pk i); [apply Z.eqb_sym | reflexivity]. }
        rewrite He.
        assert (Hres : pk_and_children s i = true \/ Some p = None
                       \/ exists p0 par0, Some p = Some p0
                            /\ find (fun r => opt_is (pk r) p0) (rows s) = Some par0).
        { right. right. exists p, par. split; [reflexivity | exact Hf]. }
        rewrite Hc in Hres.
        destruct (opt_is (pk i) p).
        -- exists (set_parent i None). split; [reflexivity|].
           repeat (split; [reflexivity|]). exact Hres.
        -- exists i. split; [reflexivity|].
           repeat (split; [reflexivity|]). split; [exact Hp | exact Hres].
      * left. split; [reflexivity|]. split; [reflexivity|].
        exists p. split; [reflexivity | exact Hf].
    + right. eexists. split; [reflexivity|].
      repeat (split; [first [reflexivity | exact Hp]|]).
      right. left. reflexivity.
Qed.

(** The pass as a whole: [date_set] and [set_sort_order] always return,
    and the pass ends as [check_tree] does. *)
Lemma pre_save_send_cases (s : Store) (i : Instance) (w : World) :
  exists i1 w1,
    date_set s i w = (Ok i1, w1)
    /\ ((pre_save_send s i w = (Raise DoesNotExist, w1)
         /\ dangling_parent s i
         /\ pk_and_children s i = false)
        \/ (exists i',
               pre_save_send s i w = (Ok i', w1)
               /\ cls i' = cls i /\ pk i' = pk i
               /\ is_live i' = is_live i /\ is_featured i' = is_featured i
               /\ publication_date i' = publication_date i
               /\ creation_date i' = creation_date i1
               /\ last_updated i' = last_updated i1
               /\ sort_order i'
                  = (if isinstance i BaseSortedModel
                     then if truthy (sort_order i) then sort_order i else Some 0
                     else sort_order i)
               /\ parent i' = (if isinstance i BaseHierarchyModel
                               then parent_after s i else parent i)
               /\ (isinstance i BaseHierarchyModel = true ->
                   pk_and_children s i = true
                   \/ parent i = None
                   \/ exists p par,
                       parent i = Some p
                       /\ find (fun r => opt_is (pk r) p) (rows s) = Some par))).
Proof.
  rewrite pre_save_send_unfold.
  destruct (date_set_run s i w)
    as (i1 & w1 & E1 & C1 & P1 & L1 & F1 & D1 & S1 & Q1).
  destruct (set_sort_order_run s i1 w1)
    as (i2 & E2 & C2 & P2 & L2 & F2 & A2 & B2 & D2 & Q2 & S2).
  exists i1, w1. split; [exact E1|].
  unfold bind. rewrite E1, E2.
  assert (Hinst : forall b, isinstance i2 b = isinstance i b)
    by (intros b; unfold isinstance; congruence).
  assert (Hpc : pk_and_children s i2 = pk_and_children s i)
    by (unfold pk_and_children; rewrite P2, P1; reflexivity).
  assert (Hpa : parent_after s i2 = parent_after s i)
    by (unfold parent_after; rewrite Hpc, Q2, Q1, P2, P1; reflexivity).
  assert (Hso : sort_order i2
                = (if isinstance i BaseSortedModel
                   then if truthy (sort_order i) then sort_order i else Some 0
                   else sort_order i)).
  { rewrite S2. unfold isinstance. rewrite C1, S1. reflexivity. }
  destruct (isinstance i BaseHierarchyModel) eqn:Hh; cbv beta iota.
  - destruct (check_tree_cases s i2 w1) as
        [(E3 & Hc & p & Hp & Hf)
        | (i3 & E3 & C3 & P3 & L3 & F3 & A3 & B3 & D3 & S3 & Q3 & Hres)];
      [rewrite Hinst; exact Hh | |]; rewrite E3.
    + left. split; [reflexivity|]. split.
      * split; [exact Hh|]. exists p. split; [congruence | exact Hf].
      * congruence.
    + right. exists i3. split; [reflexivity|].
      repeat (split; [congruence|]).
      intros _. rewrite Hpc, Q2, Q1 in Hres. exact Hres.
  - right. exists i2. unfold check_tree. rewrite Hinst, Hh.
    split; [reflexivity|].
    repeat (split; [congruence|]). discriminate.
Qed.

(** C4. On every save of an audited record ([DateAuditModel] instance)
    [date_set], the first handler of the pre-save pass, sets
    [creation_date] to the instant read from the clock only when it is
    unset and always sets [last_updated] to the instant read from the
    clock: a record saved without a creation timestamp gets the save-time
    reading, and saving a record that has one keeps [creation_date] and
    overwrites [last_updated], which therefore changes whenever the stored
    value is not already the current instant.  The pass returns the record
    with these two timestamps; the one way it does not return is
    [check_tree] failing on a hierarchical record whose parent key names
    no row. *)
Theorem date_set_on_save (s : Store) (instance : Instance) (w : World) :
  isinstance instance DateAuditModel = true ->
  exists i1 w1,
    date_set s instance w = (Ok i1, w1)
    /\ (creation_date instance = None ->
        creation_date i1 = Some (current w)
        /\ last_updated i1 = Some (current (tick w)))
    /\ (forall c, creation_date instance = Some c ->
        creation_date i1 = Some c
        /\ last_updated i1 = Some (current w)
        /\ (last_updated instance <> Some (current w) ->
            last_updated i1 <> last_updated instance))
    /\ ((exists instance',
            pre_save_send s instance w = (Ok instance', w1)
            /\ creation_date instance' = creation_date i1
            /\ last_updated instance' = last_updated i1)
        \/ (pre_save_send s instance w = (Raise DoesNotExist, w1)
            /\ dangling_parent s instance)).
Proof.
  intros Hi.
  destruct (pre_save_send_cases s instance w) as (i1 & w1 & E1 & Hout).
  exists i1, w1. split; [exact E1|].
  rewrite (date_set_audited s instance w Hi) in E1.
  split; [|split].
  - intros Hn. rewrite Hn in E1. inversion E1; subst. split; reflexivity.
  - intros c Hs. rewrite Hs in E1. inversion E1; subst. simpl.
    repeat split; [exact Hs | congruence].
  - destruct Hout as [(E & Hd & _) | (i' & E & _ & _ & _ & _ & _ & Hc & Hl & _)].
    + right. split; assumption.
    + left. exists i'. repeat split; assumption.
Qed.

Lemma date_set_on_save_witness :
  isinstance (set_creation_date (article 1 None true false) None) DateAuditModel = true
  /\ exists instance' w',
      pre_save_send (mkStore [] []) (set_creation_date (article 1 None true false) None)
                    sample_world = (Ok instance', w')
      /\ creation_date instance' = Some (current sample_world)
      /\ last_updated instance' = Some (current (tick sample_world)).
Proof.
  split; [reflexivity|].
  destruct (date_set_on_save (mkStore [] [])
              (set_creation_date (article 1 None true false) None) sample_world)
    as (i1 & w1 & _ & Hnone & _ & [(i' & E & Hc & Hl) | (E & _)]);
    [reflexivity | | discriminate].
  exists i', w1. split; [exact E|].
  rewrite Hc, Hl. apply Hnone. reflexivity.
Defined.

(** Two saves in a row: the second keeps the creation timestamp of the
    first and moves [last_updated] on. *)
Example resave_keeps_creation_date :
  exists i1 w1 i2 w2,
    pre_save_send (mkStore [] []) (set_creation_date (article 1 None true false) None)
                  sample_world = (Ok i1, w1)
    /\ pre_save_send (mkStore [i1] []) i1 w1 = (Ok i2, w2)
    /\ creation_date i1 = Some 1728043200000000
    /\ last_updated i1 = Some 1728043201000000
    /\ creation_date i2 = Some 1728043200000000
    /\ last_updated i2 = Some 1728043202000000.
Proof. do 4 eexists. repeat split. Qed.

(** The pre-save pass of [Model.save] leaves [publication_date] as it
    finds it: [set_publication_date] is connected for the sender
    [BaseContentModel], and the sender of a save is the instance's own
    concrete class. *)
Lemma pre_save_send_publication_date (s : Store) (instance instance' : Instance)
      (w w' : World) :
  pre_save_send s instance w = (Ok instance', w') ->
  publication_date instance' = publication_date instance.
Proof.
  intros E.
  destruct (pre_save_send_cases s instance w)
    as (i1 & w1 & _ & [(E' & _) | (i' & E' & _ & _ & _ & _ & Hp & _)]);
    rewrite E' in E; [discriminate|].
  injection E as <- _. exact Hp.
Qed.

(** The handler itself, when it is called, fills in today's date. *)
Lemma set_publication_date_called (s : Store) (instance : Instance) (w : World) :
  publication_date instance = None ->
  exists instance',
    set_publication_date s instance w = (Ok instance', tick w)
    /\ publication_date instance' = Some (date_of (current w)).
Proof.
  intros Hn. unfold set_publication_date. rewrite Hn.
  eexists. split; reflexivity.
Qed.

(** C2. Saving an [Article] (a [BaseContentModel] subclass) whose
    [publication_date] is unset: the pre-save pass returns it with
    [publication_date] still unset, although it is an instance of
    [BaseContentModel]. *)
Theorem set_publication_date_not_reached :
  isinstance (article 1 None true false) BaseContentModel = true
  /\ exists instance' w',
      pre_save_send (mkStore [] []) (article 1 None true false) sample_world
      = (Ok instance', w')
      /\ publication_date instance' = None.
Proof.
  split; [reflexivity|].
  do 2 eexists. split; [reflexivity|].
  apply (pre_save_send_publication_date (mkStore [] [])
           (article 1 None true false) _ sample_world _ eq_refl).
Qed.

(** The parent the saved row ends up with, and why the save returned. *)
Lemma save_cases (s : Store) (i : Instance) (w : World) :
  isinstance i BaseHierarchyModel = true ->
  (exists w', save s i w = (Raise DoesNotExist, w')
              /\ dangling_parent s i /\ pk_and_children s i = false)
  \/ (exists l' i' w',
         save s i w = (Ok (mkStoreOf l' (images s) (image_declaration s), i'), w')
         /\ parent i' = parent_after s i
         /\ pk i' = match pk i with
                    | Some k => Some k
                    | None => Some (fresh_pk (rows s))
                    end
         /\ In i' l'
         /\ (forall x, In x l' -> x = i' \/ (In x (rows s) /\ pk x <> pk i'))
         /\ (forall x, In x (rows s) -> pk x <> pk i' -> In x l')
         /\ (pk_and_children s i = true
             \/ parent i = None
             \/ exists p par,
                 parent i = Some p
                 /\ find (fun r => opt_is (pk r) p) (rows s) = Some par)).
Proof.
  intros Hh. unfold save, bind.
  destruct (pre_save_send_cases s i w)
    as (i1 & w1 & _ & [(E & Hd & Hc)
                      | (i' & E & _ & Hpk & _ & _ & _ & _ & _ & _ & Hpar & Hres)]);
    rewrite E.
  - left. exists w1. split; [reflexivity | split; [exact Hd | exact Hc]].
  - right. rewrite Hh in Hpar.
    destruct (write_row (rows s) i') as [l' i''] eqn:Hw.
    destruct (write_row_rows _ _ _ _ Hw) as (Hp' & Hpk' & Hin' & Hold & Hkeep).
    exists l', i'', w1. split; [reflexivity|].
    rewrite Hpk in Hpk'.
    split; [congruence|]. split; [exact Hpk'|]. split; [exact Hin'|].
    split; [exact Hold|]. split; [exact Hkeep | exact (Hres Hh)].
Qed.

Lemma pk_and_children_true (s : Store) (i : Instance) (k : Z) :
  pk i = Some k -> k <> 0 -> children_count s k <> 0%nat ->
  pk_and_children s i = true.
Proof.
  intros Hk Hnz Hch. unfold pk_and_children. rewrite Hk. simpl.
  apply Z.eqb_neq in Hnz. rewrite Hnz.
  apply Nat.eqb_neq in Hch. rewrite Hch. reflexivity.
Qed.

(** C3 (as the code has it). For a hierarchical record being saved: if
    it has a non-zero primary key and at least one child, the pre-save
    pass sets [parent] to [None] and the save goes through; if its parent
    key is its own key and names a stored row, the pass sets [parent] to
    [None] and the save goes through; and whenever the save goes through,
    the saved row is in the table, has a key, and is not its own
    parent. *)
Theorem check_tree_on_save (s : Store) (instance : Instance) (w : World) :
  isinstance instance BaseHierarchyModel = true ->
  (forall k, pk instance = Some k -> k <> 0 -> children_count s k <> 0%nat ->
     exists s' instance' w',
       save s instance w = (Ok (s', instance'), w')
       /\ parent instance' = None)
  /\ (forall k par,
        pk instance = Some k -> parent instance = Some k ->
        find (fun r => opt_is (pk r) k) (rows s) = Some par ->
        exists s' instance' w',
          save s instance w = (Ok (s', instance'), w')
          /\ parent instance' = None)
  /\ (forall s' instance' w',
        save s instance w = (Ok (s', instance'), w') ->
        In instance' (rows s')
        /\ exists k', pk instance' = Some k' /\ parent instance' <> Some k').
Proof.
  intros Hh.
  destruct (save_cases s instance w Hh)
    as [(w' & E & (_ & p & Hp & Hf) & Hc)
       | (l' & i' & w' & E & Hpar & Hpk & Hin & _ & _ & Hres)].
  - (* the save raises: neither premise holds *)
    split; [|split].
    + intros k Hk Hnz Hch.
      rewrite (pk_and_children_true s instance k Hk Hnz Hch) in Hc. discriminate.
    + intros k par Hk Hpk Hfk. rewrite Hp in Hpk. injection Hpk as ->.
      rewrite Hf in Hfk. discriminate.
    + intros s' i' w0 E'. rewrite E in E'. discriminate.
  - split; [|split].
    + intros k Hk Hnz Hch. exists (mkStoreOf l' (images s) (image_declaration s)), i', w'.
      split; [exact E|]. rewrite Hpar. unfold parent_after.
      rewrite (pk_and_children_true s instance k Hk Hnz Hch). reflexivity.
    + intros k par Hk Hp _. exists (mkStoreOf l' (images s) (image_declaration s)), i', w'.
      split; [exact E|]. rewrite Hpar. unfold parent_after.
      destruct (pk_and_children s instance); [reflexivity|].
      rewrite Hp, Hk. unfold opt_is. rewrite Z.eqb_refl. reflexivity.
    + intros s' i0 w0 E'. rewrite E in E'. injection E' as <- <- _.
      split; [exact Hin|].
      destruct (pk instance) as [k|] eqn:Hk.
      * exists k. split; [exact Hpk|]. rewrite Hpar. unfold parent_after.
        destruct (pk_and_children s instance); [discriminate|].
        destruct (parent instance) as [p|]; [|discriminate].
        rewrite Hk. destruct (opt_is (Some k) p) eqn:Ho; [discriminate|].
        apply opt_is_false in Ho. congruence.
      * exists (fresh_pk (rows s)). split; [exact Hpk|].
        rewrite Hpar. unfold parent_after.
        assert (Hc : pk_and_children s instance = false)
          by (unfold pk_and_children; rewrite Hk; reflexivity).
        rewrite Hc in *.
        destruct Hres as [Hres | [Hres | (p & par & Hp & Hf)]];
          [discriminate | rewrite Hres; discriminate |].
        rewrite Hp, Hk. simpl.
        destruct (find_pk_in _ _ _ Hf) as [Hpin Hppk].
        pose proof (fresh_pk_above _ _ _ Hpin Hppk).
        intros Heq. injection Heq as Heq. lia.
Qed.

Lemma check_tree_on_save_witness :
  exists s' instance' w',
    save (mkStore [category (Some 1) None] []) (category (Some 1) (Some 1))
         sample_world
    = (Ok (s', instance'), w')
    /\ parent instance' = None.
Proof.
  destruct (check_tree_on_save (mkStore [category (Some 1) None] [])
              (category (Some 1) (Some 1)) sample_world eq_refl)
    as (_ & Hself & _).
  apply (Hself 1 (category (Some 1) None)); reflexivity.
Defined.

(** C3 (as stated) fails three times.  Saving a new record under a
    parent that itself has a parent is accepted as it is, so that the
    table then holds a record that has both a parent and a child.  A
    record whose primary key is [0] keeps its parent although it has a
    child.  And saving a record that has its own key as parent key, but is
    not a row of the table yet, is rejected. *)
Lemma check_tree_misses :
  (exists s' i' w',
      save (mkStore [category (Some 1) None; category (Some 2) (Some 1)] [])
           (category None (Some 2)) sample_world
      = (Ok (s', i'), w')
      /\ In (category (Some 2) (Some 1)) (rows s')
      /\ children_count s' 2 = 1%nat)
  /\ (children_count
        (mkStore [category (Some 0) None; category (Some 5) (Some 0);
                  category (Some 7) None] []) 0 = 1%nat
      /\ exists i' w',
          pre_save_send
            (mkStore [category (Some 0) None; category (Some 5) (Some 0);
                      category (Some 7) None] [])
            (category (Some 0) (Some 7)) sample_world
          = (Ok i', w')
          /\ parent i' = Some 7)
  /\ save (mkStore [] []) (category (Some 1) (Some 1)) sample_world
     = (Raise DoesNotExist, sample_world).
Proof.
  split; [|split].
  - do 3 eexists. split; [reflexivity|]. split.
    + simpl. auto.
    + reflexivity.
  - split; [reflexivity|].
    do 2 eexists. split; reflexivity.
  - reflexivity.
Qed.

(** ** The managers *)

(** A day is at or before the day of an instant exactly when it has begun
    by that instant. *)
Lemma date_of_le (d t : Z) : d <= date_of t <-> d * ticks_per_day <= t.
Proof.
  unfold date_of.
  assert (Hpos : 0 < ticks_per_day) by reflexivity.
  pose proof (Z.div_mod t ticks_per_day ltac:(lia)) as Hdm.
  pose proof (Z.mod_pos_bound t ticks_per_day Hpos) as Hb.
  unfold ticks_per_day in *. lia.
Qed.

Lemma LiveManager_run (s : Store) (w : World) :
  LiveManager_get_query_set s w
  = (Ok (filter (fun r => Bool.eqb (is_live r) true
                          && lte (publication_date r) (date_of (current w)))
                (rows s)),
     tick w).
Proof. reflexivity. Qed.

Lemma FeaturedManager_run (s : Store) (w : World) :
  FeaturedManager_get_query_set s w
  = (Ok (filter (fun r => Bool.eqb (is_featured r) true)
                (filter (fun r => Bool.eqb (is_live r) true
                                  && lte (publication_date r) (date_of (current w)))
                        (rows s))),
     tick w).
Proof. reflexivity. Qed.

Lemma FeaturedManagerWithImages_run (s : Store) (w : World) :
  image_declaration s = model_named_Image ->
  FeaturedManagerWithImages_get_query_set s w
  = (Ok (distinct
           (filter_image_notnull s
              (filter (fun r => Bool.eqb (is_featured r) true)
                 (filter (fun r => Bool.eqb (is_live r) true
                                   && lte (publication_date r) (date_of (current w)))
                         (rows s))))),
     tick w).
Proof.
  intros Hd. unfold FeaturedManagerWithImages_get_query_set, bind.
  rewrite FeaturedManager_run, Hd. reflexivity.
Qed.

(** With the relation declared under [related_name='image_set'] the
    keyword [image] names nothing. *)
Lemma FeaturedManagerWithImages_raises (s : Store) (w : World) :
  image_declaration s = related_name_image_set ->
  FeaturedManagerWithImages_get_query_set s w = (Raise FieldError, tick w).
Proof.
  intros Hd. unfold FeaturedManagerWithImages_get_query_set, bind.
  rewrite FeaturedManager_run, Hd. reflexivity.
Qed.

(** C7. At every state of the store and every reading of the clock, the
    live view holds exactly the rows of the base view whose [is_live] flag
    is set and whose [publication_date] is at or before now: its day is at
    most the current day, that is, the day has begun by the current
    instant. *)
Theorem live_view (s : Store) (w : World) :
  exists qs,
    get_query_set LiveManager s w = (Ok qs, tick w)
    /\ forall r,
        In r qs <->
        In r (rows s)
        /\ is_live r = true
        /\ exists d, publication_date r = Some d
                     /\ d <= date_of (current w)
                     /\ d * ticks_per_day <= current w.
Proof.
  eexists. split; [apply LiveManager_run|].
  intros r. rewrite filter_In, andb_true_iff. unfold lte.
  split.
  - intros (Hin & Hl & Hd). split; [exact Hin|]. split.
    + destruct (is_live r); [reflexivity | discriminate].
    + destruct (publication_date r) as [d|]; [|discriminate].
      exists d. apply Z.leb_le in Hd. split; [reflexivity|].
      split; [exact Hd | apply date_of_le; exact Hd].
  - intros (Hin & Hl & d & Hp & Hd & _). split; [exact Hin|].
    rewrite Hl, Hp. split; [reflexivity | apply Z.leb_le; exact Hd].
Qed.

Lemma images_of_owner (s : Store) (r : Instance) :
  images_of s r <> [] <->
  exists k im, pk r = Some k /\ In im (images s) /\ image_owner im = k.
Proof.
  unfold images_of. split.
  - destruct (pk r) as [k|]; [|congruence].
    intros Hne.
    destruct (filter _ (images s)) as [|im l] eqn:Hf; [congruence|].
    assert (Hin : In im (filter (fun im => image_owner im =? k) (images s)))
      by (rewrite Hf; left; reflexivity).
    apply filter_In in Hin. destruct Hin as [Hin Ho].
    exists k, im. repeat split; [exact Hin | apply Z.eqb_eq; exact Ho].
  - intros (k & im & Hk & Hin & Ho). rewrite Hk.
    assert (Hf : In im (filter (fun im => image_owner im =? k) (images s)))
      by (apply filter_In; split; [exact Hin | apply Z.eqb_eq; exact Ho]).
    intros He. rewrite He in Hf. exact Hf.
Qed.

Lemma filter_image_notnull_In (s : Store) (qs : list Instance) (r : Instance) :
  In r (filter_image_notnull s qs) <-> In r qs /\ images_of s r <> [].
Proof.
  unfold filter_image_notnull. rewrite in_flat_map. split.
  - intros (x & Hx & Hm). apply in_map_iff in Hm.
    destruct Hm as (im & Heq & Him). subst x. split; [exact Hx|].
    intros He. rewrite He in Him. exact Him.
  - intros (Hin & Hne). exists r. split; [exact Hin|].
    destruct (images_of s r) as [|im l]; [congruence|].
    left. reflexivity.
Qed.

(** A featured record with two images is joined twice and kept once. *)
Example distinct_drops_join_duplicates :
  filter_image_notnull (mkStore [] [mkImage 1 2; mkImage 2 2])
                       [article 2 (Some 19001) true true]
  = [article 2 (Some 19001) true true; article 2 (Some 19001) true true]
  /\ distinct [article 2 (Some 19001) true true; article 2 (Some 19001) true true]
     = [article 2 (Some 19001) true true].
Proof. split; reflexivity. Qed.

(** X27. When the image model is declared so that the keyword [image]
    names the relation, the featured-with-images view holds exactly the
    rows of the featured view that have at least one related image, each
    of them once. *)
Theorem featured_with_images_view (s : Store) (w : World) :
  image_declaration s = model_named_Image ->
  exists qs featured,
    get_query_set FeaturedManagerWithImages s w = (Ok qs, tick w)
    /\ get_query_set FeaturedManager s w = (Ok featured, tick w)
    /\ NoDup qs
    /\ forall r,
        In r qs <->
        In r featured
        /\ exists k im, pk r = Some k /\ In im (images s) /\ image_owner im = k.
Proof.
  intros Hd. do 2 eexists.
  split; [apply FeaturedManagerWithImages_run; exact Hd|].
  split; [apply FeaturedManager_run|].
  split; [apply NoDup_nodup|].
  intros r. unfold distinct.
  rewrite nodup_In, filter_image_notnull_In, images_of_owner. reflexivity.
Qed.

Lemma featured_with_images_view_witness :
  exists qs,
    get_query_set FeaturedManagerWithImages
                  (mkStore [article 2 (Some 19001) true true;
                            article 1 (Some 19000) true true]
                           [mkImage 7 2; mkImage 8 2])
                  sample_world
    = (Ok qs, tick sample_world)
    /\ NoDup qs.
Proof.
  destruct (featured_with_images_view
              (mkStore [article 2 (Some 19001) true true;
                        article 1 (Some 19000) true true]
                       [mkImage 7 2; mkImage 8 2])
              sample_world eq_refl) as (qs & f & Hq & _ & Hn & _).
  exists qs. split; assumption.
Defined.

(** C6. With the image model declared as the class docstring prescribes,
    a foreign key with [related_name='image_set'], the featured-with-images
    view of a table that holds a featured record with two images is not
    returned: the query raises [FieldError]. *)
Theorem featured_with_images_view_field_error :
  get_query_set FeaturedManagerWithImages
                (mkStoreOf [article 2 (Some 19001) true true]
                           [mkImage 7 2; mkImage 8 2]
                           related_name_image_set)
                sample_world
  = (Raise FieldError, tick sample_world).
Proof.
  apply FeaturedManagerWithImages_raises. reflexivity.
Qed.

Lemma get_first_unfold (self : Manager) (s : Store) (w : World) :
  self = FeaturedManager
  \/ (self = FeaturedManagerWithImages /\ image_declaration s = model_named_Image) ->
  exists featured,
    get_query_set self s w = (Ok featured, tick w)
    /\ get_first self s w
       = match featured with
         | x :: _ => (Ok x, tick w)
         | [] => (qs <- LiveManager_get_query_set s ;; index0 qs) (tick w)
         end.
Proof.
  intros [-> | [-> Hd]].
  - exists (filter (fun r => Bool.eqb (is_featured r) true)
              (filter (fun r => Bool.eqb (is_live r) true
                                && lte (publication_date r) (date_of (current w)))
                      (rows s))).
    split; [reflexivity|].
    unfold get_first, try_except_IndexError, bind, get_query_set.
    rewrite FeaturedManager_run.
    destruct (filter _ (filter _ (rows s))); reflexivity.
  - exists (distinct
              (filter_image_notnull s
                 (filter (fun r => Bool.eqb (is_featured r) true)
                    (filter (fun r => Bool.eqb (is_live r) true
                                      && lte (publication_date r) (date_of (current w)))
                            (rows s))))).
    split; [apply FeaturedManagerWithImages_run; exact Hd|].
    unfold get_first, try_except_IndexError, bind, get_query_set.
    rewrite (FeaturedManagerWithImages_run s w Hd).
    destruct (distinct _); reflexivity.
Qed.

(** C5. At every state of the store [get_first] returns the first row of
    the featured view when that view has rows; when it has none and the
    live view then has at least one, it returns the first row of the live
    view.  The same holds of the method as [FeaturedManagerWithImages]
    inherits it, when the image model is declared so that its view can be
    queried. *)
Theorem get_first_featured_or_live (self : Manager) (s : Store) (w : World) :
  self = FeaturedManager
  \/ (self = FeaturedManagerWithImages /\ image_declaration s = model_named_Image) ->
  exists featured,
    get_query_set self s w = (Ok featured, tick w)
    /\ (forall x rest, featured = x :: rest ->
                       get_first self s w = (Ok x, tick w))
    /\ (featured = [] ->
        forall y rest,
          get_query_set LiveManager s (tick w) = (Ok (y :: rest), tick (tick w)) ->
          get_first self s w = (Ok y, tick (tick w))).
Proof.
  intros Hself.
  destruct (get_first_unfold self s w Hself) as (featured & Hq & Hf).
  exists featured. split; [exact Hq|]. split.
  - intros x rest ->. exact Hf.
  - intros -> y rest Hl. rewrite Hf. unfold bind.
    simpl get_query_set in Hl. rewrite Hl. reflexivity.
Qed.

Lemma get_first_featured_or_live_witness :
  get_first FeaturedManager
            (mkStore [article 2 (Some 19001) true false;
                      article 1 (Some 19000) true true] [])
            sample_world
  = (Ok (article 1 (Some 19000) true true), tick sample_world)
  /\ get_first FeaturedManager
               (mkStore [article 2 (Some 19001) true false;
                         article 1 (Some 19000) true false] [])
               sample_world
     = (Ok (article 2 (Some 19001) true false), tick (tick sample_world)).
Proof.
  split.
  - destruct (get_first_featured_or_live FeaturedManager
                (mkStore [article 2 (Some 19001) true false;
                          article 1 (Some 19000) true true] [])
                sample_world (or_introl eq_refl)) as (f & Hq & Hne & _).
    apply (Hne _ []).
    simpl get_query_set in Hq. rewrite FeaturedManager_run in Hq.
    injection Hq as <-. reflexivity.
  - destruct (get_first_featured_or_live FeaturedManager
                (mkStore [article 2 (Some 19001) true false;
                          article 1 (Some 19000) true false] [])
                sample_world (or_introl eq_refl)) as (f & Hq & _ & He).
    apply (fun E => He E _ [article 1 (Some 19000) true false]).
    + simpl get_query_set in Hq. rewrite FeaturedManager_run in Hq.
      injection Hq as <-. reflexivity.
    + reflexivity.
Defined.

(** C10. When the live view has no rows, [get_first] has nothing to fall
    back on: the [IndexError] raised by indexing the empty live view in the
    handler reaches the caller.  The same holds of the method as
    [FeaturedManagerWithImages] inherits it, when the image model is
    declared so that its view can be queried. *)
Theorem get_first_live_empty (self : Manager) (s : Store) (w : World) :
  self = FeaturedManager
  \/ (self = FeaturedManagerWithImages /\ image_declaration s = model_named_Image) ->
  get_query_set LiveManager s w = (Ok [], tick w) ->
  get_query_set LiveManager s (tick w) = (Ok [], tick (tick w)) ->
  get_first self s w = (Raise IndexError, tick (tick w)).
Proof.
  intros Hself H1 H2.
  destruct (get_first_unfold self s w Hself) as (featured & Hq & Hf).
  simpl get_query_set in H1, H2.
  assert (Hempty : featured = []).
  { rewrite LiveManager_run in H1. injection H1 as H1.
    destruct Hself as [-> | [-> Hd]]; simpl get_query_set in Hq.
    - rewrite FeaturedManager_run in Hq. injection Hq as <-.
      rewrite H1. reflexivity.
    - rewrite (FeaturedManagerWithImages_run s w Hd) in Hq. injection Hq as <-.
      rewrite H1. reflexivity. }
  rewrite Hf, Hempty. unfold bind. rewrite H2. reflexivity.
Qed.

Lemma get_first_live_empty_witness :
  get_first FeaturedManager
            (mkStore [article 2 (Some 30000) true true;
                      article 1 (Some 19000) false true] [])
            sample_world
  = (Raise IndexError, tick (tick sample_world)).
Proof.
  apply get_first_live_empty; [left; reflexivity | reflexivity | reflexivity].
Defined.


(** ** The ancestor walk *)

Lemma get_hierarchy_root (s : Store) (self : Instance) (w : World)
      (include_self : bool) (depth : nat) :
  parent self = None ->
  get_hierarchy (S depth) s self include_self w
  = (Ok (if include_self then [self] else []), w).
Proof.
  intros Hp. simpl. unfold bind, get_parent. rewrite Hp. reflexivity.
Qed.

Lemma get_hierarchy_child (s : Store) (self par : Instance) (p : Z) (w : World)
      (include_self : bool) (depth : nat) (h : list Instance) :
  parent self = Some p ->
  find (fun x => opt_is (pk x) p) (rows s) = Some par ->
  get_hierarchy depth s par true w = (Ok h, w) ->
  get_hierarchy (S depth) s self include_self w
  = (Ok (h ++ (if include_self then [self] else [])), w).
Proof.
  intros Hp Hf Hh. simpl. unfold bind, get_parent. rewrite Hp, Hf.
  unfold ret at 1. rewrite Hh. reflexivity.
Qed.

Lemma get_hierarchy_of_chain (s : Store) (w : World) (self : Instance)
      (l : list Instance) :
  chain s self l ->
  forall depth, (List.length l <= depth)%nat ->
    get_hierarchy depth s self true w = (Ok l, w)
    /\ get_hierarchy depth s self false w = (Ok (removelast l), w).
Proof.
  induction 1 as [r Hp | r p par l Hp Hf Hc IH]; intros depth Hd.
  - destruct depth as [|d]; [simpl in Hd; lia|].
    split; apply get_hierarchy_root; exact Hp.
  - rewrite length_app in Hd. simpl in Hd.
    destruct depth as [|d]; [lia|].
    destruct (IH d ltac:(lia)) as [IHt _].
    split.
    + apply (get_hierarchy_child s r par p w true d l Hp Hf IHt).
    + rewrite removelast_last.
      rewrite (get_hierarchy_child s r par p w false d l Hp Hf IHt).
      rewrite app_nil_r. reflexivity.
Qed.

(** X26. A row that is stored as its own parent has no such chain: the
    walk exhausts whatever call depth it is given and fails with "maximum
    recursion depth exceeded". *)
Lemma get_hierarchy_self_parent (s : Store) (self : Instance) (p : Z)
      (w : World) (depth : nat) (include_self : bool) :
  parent self = Some p ->
  find (fun x => opt_is (pk x) p) (rows s) = Some self ->
  get_hierarchy depth s self include_self w = (Raise RuntimeError, w).
Proof.
  intros Hp Hf. revert include_self.
  induction depth as [|d IH]; intros include_self; [reflexivity|].
  simpl. unfold bind, get_parent. rewrite Hp, Hf.
  unfold ret at 1. rewrite IH. reflexivity.
Qed.

(** C8. [get_hierarchy] returns the chain of ancestors from the root down
    to the record: [[self]] for a record without parent, the parent's
    hierarchy followed by [self] for a record with a parent, hence
    [[parent; self]] when the parent is a root; with [include_self=False]
    the record itself is left out, which gives the empty list for a root.
    Whenever the ancestors form a chain that fits in the allowed call
    depth, the call returns that chain. *)
Theorem get_hierarchy_root_to_self (s : Store) (self : Instance) (w : World) :
  (parent self = None ->
   forall depth,
     get_hierarchy (S depth) s self true w = (Ok [self], w)
     /\ get_hierarchy (S depth) s self false w = (Ok [], w))
  /\ (forall p par h depth,
         parent self = Some p ->
         find (fun x => opt_is (pk x) p) (rows s) = Some par ->
         get_hierarchy depth s par true w = (Ok h, w) ->
         get_hierarchy (S depth) s self true w = (Ok (h ++ [self]), w)
         /\ get_hierarchy (S depth) s self false w = (Ok h, w))
  /\ (forall p par depth,
         parent self = Some p ->
         find (fun x => opt_is (pk x) p) (rows s) = Some par ->
         parent par = None ->
         get_hierarchy (S (S depth)) s self true w = (Ok [par; self], w)
         /\ get_hierarchy (S (S depth)) s self false w = (Ok [par], w))
  /\ (forall l depth,
         chain s self l -> (List.length l <= depth)%nat ->
         get_hierarchy depth s self true w = (Ok l, w)
         /\ get_hierarchy depth s self false w = (Ok (removelast l), w)).
Proof.
  repeat split.
  - apply get_hierarchy_root; assumption.
  - apply get_hierarchy_root; assumption.
  - eapply get_hierarchy_child; eassumption.
  - erewrite get_hierarchy_child by eassumption.
    rewrite app_nil_r. reflexivity.
  - eapply (get_hierarchy_child s self par p w true (S depth) [par]);
      try eassumption.
    apply get_hierarchy_root; assumption.
  - erewrite (get_hierarchy_child s self par p w false (S depth) [par]);
      try eassumption; [reflexivity|].
    apply get_hierarchy_root; assumption.
  - apply (get_hierarchy_of_chain s w self l); assumption.
  - apply (get_hierarchy_of_chain s w self l); assumption.
Qed.

Lemma get_hierarchy_root_to_self_witness :
  get_hierarchy 1000
                (mkStore [category (Some 1) None; category (Some 2) (Some 1)] [])
                (category (Some 2) (Some 1)) true sample_world
  = (Ok [category (Some 1) None; category (Some 2) (Some 1)], sample_world)
  /\ get_hierarchy 1000
                   (mkStore [category (Some 1) None; category (Some 2) (Some 1)] [])
                   (category (Some 1) None) false sample_world
     = (Ok [], sample_world).
Proof.
  split.
  - destruct (get_hierarchy_root_to_self
                (mkStore [category (Some 1) None; category (Some 2) (Some 1)] [])
                (category (Some 2) (Some 1)) sample_world)
      as (_ & _ & Htwo & _).
    apply (Htwo 1 (category (Some 1) None) 998%nat); reflexivity.
  - destruct (get_hierarchy_root_to_self
                (mkStore [category (Some 1) None; category (Some 2) (Some 1)] [])
                (category (Some 1) None) sample_world)
      as (Hroot & _).
    apply (Hroot eq_refl 999%nat).
Defined.


(** ** The ordered neighbour lookup *)

Section NeighbourLookupFacts.

Context {Obj : Type} `{Attrs Obj}.

Lemma forallb_exact (row instance : Obj) (prev_fields : list string) :
  forallb (holds row)
          (map (fun f => (f, exact, get_model_attr instance f)) prev_fields)
  = forallb (fun f => key row f =? key instance f) prev_fields.
Proof.
  induction prev_fields as [|f l IH]; simpl; [reflexivity|].
  rewrite IH. reflexivity.
Qed.

Lemma Q_matches_fold_or (rest : list (Q Obj)) (q : Q Obj) (row : Obj) :
  Q_matches (fold_left Q_or rest q) row
  = Q_matches q row || existsb (fun q' => Q_matches q' row) rest.
Proof.
  revert q. induction rest as [|q' l IH]; intros q; simpl.
  - rewrite orb_false_r. reflexivity.
  - rewrite IH. simpl. rewrite orb_assoc. reflexivity.
Qed.

(** Closes the boolean identity one pass of the loop comes down to: the
    strict comparison on the current field, or equality on it followed by
    the remaining fields, is the lexicographic comparison. *)
Ltac loop_step row instance field :=
  generalize (key row field); generalize (key instance field);
  intros y x;
  destruct (Z.eqb_spec x y), (Z.eqb_spec y x), (Z.ltb_spec x y), (Z.ltb_spec y x);
  try lia;
  repeat match goal with
         | |- context [existsb ?f ?l] => destruct (existsb f l)
         | |- context [forallb ?f ?l] => destruct (forallb f l)
         | |- context [precedes ?l ?a ?b] => destruct (precedes l a b)
         end;
  reflexivity.

(** The rows the built conditions accept: those strictly after the
    instance for ['gt'], strictly before it for ['lt']. *)
Lemma build_q_list_sem (instance : Obj) (prev : bool) (fields : list string) :
  Forall (fun e => e <> "") fields ->
  forall prev_fields q_list,
  exists ql,
    build_q_list instance (if prev then lt else gt) fields prev_fields q_list = Ok ql
    /\ List.length ql = (List.length q_list + List.length fields)%nat
    /\ forall row,
        existsb (fun q => Q_matches q row) ql
        = existsb (fun q => Q_matches q row) q_list
          || (forallb (fun f => key row f =? key instance f) prev_fields
              && (if prev then precedes fields row instance
                  else precedes fields instance row)).
Proof.
  induction 1 as [|e rest He Hrest IH]; intros prev_fields q_list.
  - exists q_list. split; [reflexivity|]. split; [simpl; lia|].
    intros row. simpl. destruct prev; rewrite andb_false_r, orb_false_r; reflexivity.
  - destruct e as [|c tail]; [congruence|].
    simpl build_q_list.
    destruct (Ascii.eqb c "-") eqn:Ec.
    + destruct (IH (prev_fields ++ [tail])
                   (q_list ++ [Q_kwargs
                      (map (fun f => (f, exact, get_model_attr instance f)) prev_fields
                       ++ [(tail, flipped (if prev then lt else gt),
                            get_model_attr instance tail)])]))
        as (ql & Hql & Hlen & Hsem).
      exists ql. split; [exact Hql|]. split.
      { rewrite Hlen, length_app. simpl. lia. }
      intros row. rewrite Hsem, existsb_app. simpl existsb.
      rewrite !forallb_app, forallb_exact. simpl forallb.
      simpl precedes. unfold field_of, descending. rewrite Ec.
      fold (key row tail) (key instance tail).
      destruct prev; simpl holds; fold (key row tail) (key instance tail);
        loop_step row instance tail.
    + destruct (IH (prev_fields ++ [String c tail])
                   (q_list ++ [Q_kwargs
                      (map (fun f => (f, exact, get_model_attr instance f)) prev_fields
                       ++ [(String c tail, if prev then lt else gt,
                            get_model_attr instance (String c tail))])]))
        as (ql & Hql & Hlen & Hsem).
      exists ql. split; [exact Hql|]. split.
      { rewrite Hlen, length_app. simpl. lia. }
      intros row. rewrite Hsem, existsb_app. simpl existsb.
      rewrite !forallb_app, forallb_exact. simpl forallb.
      simpl precedes. unfold field_of, descending. rewrite Ec.
      fold (key row (String c tail)) (key instance (String c tail)).
      destruct prev; simpl holds;
        fold (key row (String c tail)) (key instance (String c tail));
        loop_step row instance (String c tail).
Qed.

Lemma existsb_shift (f g : nat -> bool) (b : bool) (n : nat) :
  (forall k, f (S k) = b && g k) ->
  existsb f (seq 1 n) = b && existsb g (seq 0 n).
Proof.
  intros Hfg. rewrite <- seq_shift. generalize (seq 0 n). intros l.
  induction l as [|k l IH]; simpl.
  - rewrite andb_false_r. reflexivity.
  - rewrite IH, Hfg. destruct b; reflexivity.
Qed.

(** The candidate conditions, taken together, are the lexicographic
    comparison with the instance. *)
Lemma candidates_precedes (entries : list string) (instance row : Obj)
      (prev : bool) :
  existsb (fun k => candidate entries instance prev k row)
          (seq 0 (List.length entries))
  = if prev then precedes entries row instance
    else precedes entries instance row.
Proof.
  induction entries as [|e rest IH].
  - destruct prev; reflexivity.
  - change (seq 0 (List.length (e :: rest)))
      with (0%nat :: seq 1 (List.length rest)).
    cbn [existsb].
    rewrite (existsb_shift _ (fun k => candidate rest instance prev k row)
                           (key row (field_of e) =? key instance (field_of e))).
    + rewrite IH.
      unfold candidate at 1. cbn [firstn forallb nth_error andb].
      simpl precedes.
      destruct prev, (descending e); cbn [xorb];
        generalize (key row (field_of e)); generalize (key instance (field_of e));
        intros y x;
        destruct (Z.eqb_spec x y), (Z.eqb_spec y x), (Z.ltb_spec x y), (Z.ltb_spec y x);
        try lia;
        repeat match goal with
               | |- context [precedes ?l ?a ?b] => destruct (precedes l a b)
               end;
        reflexivity.
    + intros k. unfold candidate. cbn [firstn forallb nth_error].
      rewrite andb_assoc. reflexivity.
Qed.

Lemma precedes_irrefl (entries : list string) (a : Obj) :
  precedes entries a a = false.
Proof.
  induction entries as [|e rest IH]; simpl; [reflexivity|].
  rewrite Z.eqb_refl. exact IH.
Qed.

Lemma precedes_asym (entries : list string) (a b : Obj) :
  precedes entries a b = true -> precedes entries b a = false.
Proof.
  induction entries as [|e rest IH]; simpl; [discriminate|].
  generalize (key a (field_of e)); generalize (key b (field_of e)).
  intros y x.
  destruct (Z.eqb_spec x y), (Z.eqb_spec y x); try lia; [exact IH|].
  destruct (descending e), (Z.ltb_spec x y), (Z.ltb_spec y x);
    try lia; congruence.
Qed.

Lemma StronglySorted_split {A} (R : A -> A -> Prop) (l1 l2 : list A) (r : A) :
  StronglySorted R (l1 ++ r :: l2) ->
  Forall (fun x => R x r) l1 /\ Forall (R r) l2.
Proof.
  induction l1 as [|x l1 IH]; simpl; intros Hs;
    apply StronglySorted_inv in Hs; destruct Hs as [Hs Hx].
  - split; [constructor | exact Hx].
  - destruct (IH Hs) as [H1 H2]. split; [|exact H2].
    constructor; [|exact H1].
    rewrite Forall_forall in Hx. apply Hx. apply in_or_app. right. left. reflexivity.
Qed.

Lemma filter_keeps_suffix {A} (f : A -> bool) (l1 l2 : list A) (r : A) :
  Forall (fun x => f x = false) l1 ->
  f r = false ->
  Forall (fun x => f x = true) l2 ->
  filter f (l1 ++ r :: l2) = l2.
Proof.
  intros H1 Hr H2. rewrite filter_app. simpl. rewrite Hr.
  assert (E1 : filter f l1 = []).
  { induction H1 as [|x l Hx _ IH]; simpl; [reflexivity|]. rewrite Hx. exact IH. }
  assert (E2 : filter f l2 = l2).
  { induction H2 as [|x l Hx _ IH]; simpl; [reflexivity|]. rewrite Hx, IH. reflexivity. }
  rewrite E1, E2. reflexivity.
Qed.

(** A row is in the list after an insertion when it is the inserted row
    or was there before. *)
Lemma insert_row_In (before : Obj -> Obj -> bool) (x y : Obj) (l : list Obj) :
  In y (insert_row before x l) <-> y = x \/ In y l.
Proof.
  induction l as [|z l IH]; simpl.
  - intuition congruence.
  - destruct (before z x); simpl; [rewrite IH|]; intuition congruence.
Qed.

(** Ordering a query neither adds nor loses rows. *)
Lemma order_by_In (ordering : list string) (reversed : bool) (l : list Obj)
      (x : Obj) :
  In x (order_by ordering reversed l) <-> In x l.
Proof.
  unfold order_by. induction l as [|y l IH]; simpl; [reflexivity|].
  rewrite insert_row_In, IH. intuition congruence.
Qed.

Lemma precedes_app (a b : list string) (x y : Obj) :
  precedes a x y = true -> precedes (a ++ b) x y = true.
Proof.
  induction a as [|e a IH]; simpl; [discriminate|].
  destruct (key x (field_of e) =? key y (field_of e)); [exact IH | trivial].
Qed.

Lemma StronglySorted_weaken {A} (R S : A -> A -> Prop) (l : list A) :
  (forall a b, R a b -> S a b) -> StronglySorted R l -> StronglySorted S l.
Proof.
  intros HRS. induction 1 as [|x l Hl IH Hx]; constructor; [exact IH|].
  eapply Forall_impl; [|exact Hx]. intros y. apply HRS.
Qed.

(** A list in the total order is in the order of its query. *)
Lemma order_by_sorted (ordering : list string) (l : list Obj) :
  StronglySorted (total_order ordering) l -> order_by ordering false l = l.
Proof.
  unfold order_by.
  induction 1 as [|x l Hl IH Hx]; simpl; [reflexivity|].
  rewrite IH. destruct l as [|y l']; [reflexivity|]. simpl.
  inversion Hx as [|? ? Hxy _]; subst. unfold total_order in Hxy.
  destruct (precedes ordering y x) eqn:Hyx; [|reflexivity].
  apply (precedes_app _ ["pk"]) in Hyx.
  rewrite (precedes_asym _ _ _ Hxy) in Hyx. discriminate.
Qed.

Lemma insert_row_last (before : Obj -> Obj -> bool) (x : Obj) (l : list Obj) :
  Forall (fun y => before y x = true) l -> insert_row before x l = l ++ [x].
Proof.
  induction 1 as [|y l Hy _ IH]; simpl; [reflexivity|].
  rewrite Hy, IH. reflexivity.
Qed.

(** When the declared entries alone separate the rows, the reversed query
    yields them in the opposite order. *)
Lemma order_by_reversed (ordering : list string) (l : list Obj) :
  StronglySorted (fun a b => precedes ordering a b = true) l ->
  order_by ordering true l = rev l.
Proof.
  unfold order_by.
  induction 1 as [|x l Hl IH Hx]; simpl; [reflexivity|].
  rewrite IH. apply insert_row_last. apply Forall_rev. exact Hx.
Qed.

(** What the lookup returns on a manager, or on a query set that has
    rows: the first row of the query, ordered in the direction asked for,
    that the total order puts strictly beyond the instance. *)
Lemma next_or_prev_in_order_run (objects q : QuerySet Obj) (instance : Obj)
      (prev : bool) (qs : QsArg Obj) :
  qs = qs_Manager q \/ (qs = qs_QuerySet q /\ qs_rows q <> []) ->
  Forall (fun e => e <> "") (model_ordering q) ->
  next_or_prev_in_order objects instance prev qs
  = Ok (hd_error
          (filter (fun row =>
                     if prev
                     then precedes (model_ordering q ++ ["pk"]) row instance
                     else precedes (model_ordering q ++ ["pk"]) instance row)
                  (order_by (model_ordering q) prev (qs_rows q)))).
Proof.
  intros Hqs Hord.
  assert (Hfields : Forall (fun e => e <> "") (model_ordering q ++ ["pk"])).
  { apply Forall_app. split; [exact Hord|]. constructor; [discriminate | constructor]. }
  assert (Hq : (if not_qs qs then objects else qs_of qs objects) = q).
  { destruct Hqs as [-> | [-> Hne]]; simpl; [reflexivity|].
    destruct (qs_rows q); [congruence | reflexivity]. }
  unfold next_or_prev_in_order. rewrite Hq.
  destruct (build_q_list_sem instance prev (model_ordering q ++ ["pk"]) Hfields [] [])
    as (ql & Hql & Hlen & Hsem).
  assert (Hrun : match reduce_or ql with
                 | Raise e => Raise e
                 | Ok q0 =>
                     match filter (Q_matches q0)
                                  (order_by (model_ordering q) prev (qs_rows q)) with
                     | x :: _ => Ok (Some x)
                     | [] => Ok None
                     end
                 end
                 = Ok (hd_error
                         (filter (fun row =>
                                    if prev
                                    then precedes (model_ordering q ++ ["pk"]) row instance
                                    else precedes (model_ordering q ++ ["pk"]) instance row)
                                 (order_by (model_ordering q) prev (qs_rows q))))).
  { destruct ql as [|q0 rest].
    { rewrite length_app in Hlen. simpl in Hlen. lia. }
    unfold reduce_or. cbv iota beta.
    rewrite (filter_ext (Q_matches (fold_left Q_or rest q0))
               (fun row => if prev
                           then precedes (model_ordering q ++ ["pk"]) row instance
                           else precedes (model_ordering q ++ ["pk"]) instance row)).
    - destruct (filter _ _); reflexivity.
    - intros row. rewrite Q_matches_fold_or.
      specialize (Hsem row). simpl in Hsem. exact Hsem. }
  destruct prev; rewrite Hql; exact Hrun.
Qed.

Lemma nonempty_query_set (q : QuerySet Obj) (qs : QsArg Obj) (i : nat)
      (instance : Obj) :
  qs = qs_Manager q \/ qs = qs_QuerySet q ->
  nth_error (qs_rows q) i = Some instance ->
  qs = qs_Manager q \/ (qs = qs_QuerySet q /\ qs_rows q <> []).
Proof.
  intros [-> | ->] Hnth; [left; reflexivity | right].
  split; [reflexivity|]. intros He. rewrite He in Hnth.
  destruct i; discriminate.
Qed.

(** In a view that is in its total order, [next] from the row at position
    [i] yields the row at position [i+1] when there is one, and nothing
    otherwise. *)
Lemma next_in_order_nth (objects q : QuerySet Obj) (instance : Obj)
      (i : nat) (qs : QsArg Obj) :
  qs = qs_Manager q \/ qs = qs_QuerySet q ->
  Forall (fun e => e <> "") (model_ordering q) ->
  StronglySorted (total_order (model_ordering q)) (qs_rows q) ->
  nth_error (qs_rows q) i = Some instance ->
  next_or_prev_in_order objects instance false qs
  = Ok (nth_error (qs_rows q) (S i)).
Proof.
  intros Hqs Hord Hsorted Hnth.
  rewrite (next_or_prev_in_order_run objects q instance _ qs
             (nonempty_query_set q qs i instance Hqs Hnth) Hord).
  rewrite (order_by_sorted _ _ Hsorted).
  destruct (nth_error_split _ _ Hnth) as (l1 & l2 & Hrows & Hlen).
  rewrite Hrows in Hsorted.
  destruct (StronglySorted_split _ _ _ _ Hsorted) as [Hbefore Hafter].
  unfold total_order in Hbefore, Hafter.
  rewrite Hrows.
  rewrite (filter_keeps_suffix _ l1 l2 instance).
  - rewrite nth_error_app2 by lia.
    replace (S i - List.length l1)%nat with 1%nat by lia.
    destruct l2; reflexivity.
  - eapply Forall_impl; [|exact Hbefore].
    intros x Hx. apply precedes_asym. exact Hx.
  - apply precedes_irrefl.
  - exact Hafter.
Qed.

(** In such a view [prev] from the first row yields nothing. *)
Lemma prev_in_order_first (objects q : QuerySet Obj) (instance : Obj)
      (qs : QsArg Obj) :
  qs = qs_Manager q \/ qs = qs_QuerySet q ->
  Forall (fun e => e <> "") (model_ordering q) ->
  StronglySorted (total_order (model_ordering q)) (qs_rows q) ->
  nth_error (qs_rows q) 0 = Some instance ->
  next_or_prev_in_order objects instance true qs = Ok None.
Proof.
  intros Hqs Hord Hsorted Hnth.
  rewrite (next_or_prev_in_order_run objects q instance _ qs
             (nonempty_query_set q qs 0 instance Hqs Hnth) Hord).
  f_equal.
  destruct (filter _ _) as [|x l] eqn:Hf; [reflexivity|].
  assert (Hin : In x (x :: l)) by (left; reflexivity).
  rewrite <- Hf in Hin. apply filter_In in Hin. destruct Hin as [Hin Hb].
  apply order_by_In in Hin.
  destruct (qs_rows q) as [|y l']; [discriminate|].
  injection Hnth as ->.
  apply StronglySorted_inv in Hsorted. destruct Hsorted as [_ Hall].
  destruct Hin as [<- | Hin].
  - rewrite precedes_irrefl in Hb. discriminate.
  - rewrite Forall_forall in Hall. specialize (Hall x Hin).
    unfold total_order in Hall.
    rewrite (precedes_asym _ _ _ Hall) in Hb. discriminate.
Qed.

(** When the declared entries alone separate the rows of the view,
    [prev] from the row at position [i] yields the row at position
    [i-1]. *)
Lemma prev_in_order_nth (objects q : QuerySet Obj) (instance : Obj)
      (i : nat) (qs : QsArg Obj) :
  qs = qs_Manager q \/ qs = qs_QuerySet q ->
  Forall (fun e => e <> "") (model_ordering q) ->
  StronglySorted (fun a b => precedes (model_ordering q) a b = true) (qs_rows q) ->
  nth_error (qs_rows q) i = Some instance ->
  next_or_prev_in_order objects instance true qs
  = Ok (match i with
        | O => None
        | S j => nth_error (qs_rows q) j
        end).
Proof.
  intros Hqs Hord Hstrict Hnth.
  rewrite (next_or_prev_in_order_run objects q instance _ qs
             (nonempty_query_set q qs i instance Hqs Hnth) Hord).
  rewrite (order_by_reversed _ _ Hstrict).
  assert (Hsorted : StronglySorted (total_order (model_ordering q)) (qs_rows q)).
  { eapply StronglySorted_weaken; [|exact Hstrict].
    intros a b Hab. apply precedes_app. exact Hab. }
  destruct (nth_error_split _ _ Hnth) as (l1 & l2 & Hrows & Hlen).
  rewrite Hrows in Hsorted.
  destruct (StronglySorted_split _ _ _ _ Hsorted) as [Hbefore Hafter].
  unfold total_order in Hbefore, Hafter.
  rewrite Hrows.
  rewrite rev_app_distr. simpl rev. rewrite <- app_assoc. simpl app.
  rewrite (filter_keeps_suffix _ (rev l2) (rev l1) instance).
  - clear Hrows Hsorted Hbefore Hnth. subst i.
    destruct l1 as [|x l1] using rev_ind; [reflexivity|].
    rewrite rev_app_distr, length_app, Nat.add_comm. simpl.
    rewrite <- app_assoc, nth_error_app2 by lia.
    rewrite Nat.sub_diag. reflexivity.
  - apply Forall_rev. eapply Forall_impl; [|exact Hafter].
    intros x Hx. apply precedes_asym. exact Hx.
  - apply precedes_irrefl.
  - apply Forall_rev. exact Hbefore.
Qed.

(** The lookup is the search the candidate conditions describe. *)
Lemma next_or_prev_in_order_first_candidate (objects q : QuerySet Obj)
      (instance : Obj) (prev : bool) (qs : QsArg Obj) :
  qs = qs_Manager q \/ (qs = qs_QuerySet q /\ qs_rows q <> []) ->
  Forall (fun e => e <> "") (model_ordering q) ->
  next_or_prev_in_order objects instance prev qs
  = Ok (first_candidate (model_ordering q) instance prev (qs_rows q)).
Proof.
  intros Hqs Hord.
  rewrite (next_or_prev_in_order_run objects q instance prev qs Hqs Hord).
  unfold first_candidate. f_equal. f_equal.
  apply filter_ext. intros row. symmetry. apply candidates_precedes.
Qed.

(** X28. In a non-empty view that is in its total order (the declared
    ordering of its model, then ascending primary key), [next] from the
    row at position [i] returns the row at position [i+1]; when the
    declared entries alone separate the rows, [prev] returns the row at
    position [i-1]; and in every case what the lookup returns is the first
    row of the query, ordered in the direction asked for, that satisfies
    one of the conditions "every earlier ordering field equals the
    record's value and the current field is strictly greater (less for
    [prev]; the other way round for a descending field) than the
    record's". *)
Theorem next_or_prev_in_order_adjacent (objects q : QuerySet Obj)
        (instance : Obj) (i : nat) (qs : QsArg Obj) :
  qs = qs_Manager q \/ qs = qs_QuerySet q ->
  Forall (fun e => e <> "") (model_ordering q) ->
  StronglySorted (total_order (model_ordering q)) (qs_rows q) ->
  nth_error (qs_rows q) i = Some instance ->
  (forall r, nth_error (qs_rows q) (S i) = Some r ->
             next_or_prev_in_order objects instance false qs = Ok (Some r))
  /\ (StronglySorted (fun a b => precedes (model_ordering q) a b = true)
                     (qs_rows q) ->
      forall j r, i = S j -> nth_error (qs_rows q) j = Some r ->
                  next_or_prev_in_order objects instance true qs = Ok (Some r))
  /\ (forall prev,
         next_or_prev_in_order objects instance prev qs
         = Ok (first_candidate (model_ordering q) instance prev (qs_rows q))).
Proof.
  intros Hqs Hord Hsorted Hnth.
  split; [|split].
  - intros r Hr.
    rewrite (next_in_order_nth objects q instance i qs Hqs Hord Hsorted Hnth), Hr.
    reflexivity.
  - intros Hstrict j r -> Hr.
    rewrite (prev_in_order_nth objects q instance (S j) qs Hqs Hord Hstrict Hnth), Hr.
    reflexivity.
  - intros prev. apply next_or_prev_in_order_first_candidate; [|exact Hord].
    exact (nonempty_query_set q qs i instance Hqs Hnth).
Qed.

(** C9. In such a view the lookup from the first row with [prev=True],
    and from the last row with [prev=False], returns [None]; it does not
    raise. *)
Theorem next_or_prev_in_order_at_end (objects q : QuerySet Obj)
        (instance : Obj) (i : nat) (qs : QsArg Obj) :
  qs = qs_Manager q \/ qs = qs_QuerySet q ->
  Forall (fun e => e <> "") (model_ordering q) ->
  StronglySorted (total_order (model_ordering q)) (qs_rows q) ->
  nth_error (qs_rows q) i = Some instance ->
  (i = 0%nat -> next_or_prev_in_order objects instance true qs = Ok None)
  /\ (S i = List.length (qs_rows q) ->
      next_or_prev_in_order objects instance false qs = Ok None).
Proof.
  intros Hqs Hord Hsorted Hnth.
  split.
  - intros ->. exact (prev_in_order_first objects q instance qs Hqs Hord Hsorted Hnth).
  - intros Hlast.
    rewrite (next_in_order_nth objects q instance i qs Hqs Hord Hsorted Hnth).
    assert (Hnone : nth_error (qs_rows q) (S i) = None)
      by (apply nth_error_None; lia).
    rewrite Hnone. reflexivity.
Qed.

End NeighbourLookupFacts.

Lemma next_or_prev_in_order_adjacent_witness :
  next_or_prev_in_order slides (PyInstance (slide 2 10)) false (qs_Manager slides)
  = Ok (Some (PyInstance (slide 3 20)))
  /\ next_or_prev_in_order slides (PyInstance (slide 2 10)) true (qs_Manager slides)
     = Ok (Some (PyInstance (slide 1 10))).
Proof.
  destruct (next_or_prev_in_order_adjacent slides slides (PyInstance (slide 2 10))
                                           1 (qs_Manager slides))
    as (Hnext & Hprev & _).
  - left. reflexivity.
  - repeat constructor; discriminate.
  - repeat (constructor; try reflexivity).
  - reflexivity.
  - split; [apply Hnext | apply (fun S => Hprev S 0%nat)]; try reflexivity.
    repeat (constructor; try reflexivity).
Defined.

Lemma next_or_prev_in_order_at_end_witness :
  next_or_prev_in_order articles (PyInstance (article 3 (Some 19002) true false))
                        true (qs_Manager articles) = Ok None
  /\ next_or_prev_in_order articles (PyInstance (article 1 (Some 19000) true false))
                           false (qs_Manager articles) = Ok None.
Proof.
  split.
  - destruct (next_or_prev_in_order_at_end articles articles
                (PyInstance (article 3 (Some 19002) true false)) 0
                (qs_Manager articles)) as (Hfirst & _).
    + left. reflexivity.
    + repeat constructor; discriminate.
    + repeat (constructor; try reflexivity).
    + reflexivity.
    + apply Hfirst. reflexivity.
  - destruct (next_or_prev_in_order_at_end articles articles
                (PyInstance (article 1 (Some 19000) true false)) 2
                (qs_Manager articles)) as (_ & Hlast).
    + left. reflexivity.
    + repeat constructor; discriminate.
    + repeat (constructor; try reflexivity).
    + reflexivity.
    + apply Hlast. reflexivity.
Defined.

(** C1. Three notes created at the same instant, in their total order
    (the declared [-creation_date] does not separate them, the primary key
    does): [next] from the second returns the third, but [prev] from the
    third returns the first, not the second.  The same happens on a model
    without declared ordering. *)
Theorem next_or_prev_in_order_prev_skips_ties :
  StronglySorted (total_order (model_ordering notes)) (qs_rows notes)
  /\ nth_error (qs_rows notes) 1 = Some (PyInstance (note 2))
  /\ nth_error (qs_rows notes) 2 = Some (PyInstance (note 3))
  /\ next_or_prev_in_order notes (PyInstance (note 2)) false (qs_Manager notes)
     = Ok (Some (PyInstance (note 3)))
  /\ next_or_prev_in_order notes (PyInstance (note 3)) true (qs_Manager notes)
     = Ok (Some (PyInstance (note 1)))
  /\ StronglySorted (total_order (model_ordering categories)) (qs_rows categories)
  /\ next_or_prev_in_order categories (PyInstance (category (Some 3) None)) true
                           (qs_Manager categories)
     = Ok (Some (PyInstance (category (Some 1) None))).
Proof.
  split; [repeat (constructor; try reflexivity)|].
  repeat (split; [reflexivity|]).
  split; [repeat (constructor; try reflexivity) | reflexivity].
Qed.

(** The lookup on the articles, newest first: the neighbours of the
    middle one. *)
Example next_or_prev_in_order_descending :
  next_or_prev_in_order articles (PyInstance (article 2 (Some 19001) true false))
                        false (qs_Manager articles)
  = Ok (Some (PyInstance (article 1 (Some 19000) true false)))
  /\ next_or_prev_in_order articles (PyInstance (article 2 (Some 19001) true false))
                           true (qs_Manager articles)
     = Ok (Some (PyInstance (article 3 (Some 19002) true false))).
Proof. split; reflexivity. Qed.

(** An empty query set counts as no argument: the lookup then runs on the
    default manager. *)
Example next_or_prev_in_order_empty_qs :
  next_or_prev_in_order slides (PyInstance (slide 1 10)) false
                        (qs_QuerySet (mkQuerySet (Meta_ordering BaseSortedModel) []))
  = Ok (Some (PyInstance (slide 2 10))).
Proof. reflexivity. Qed.

(** An empty ordering entry cannot be indexed. *)
Example next_or_prev_in_order_empty_entry :
  next_or_prev_in_order slides (PyInstance (slide 1 10)) false
                        (qs_Manager (mkQuerySet [""] (qs_rows slides)))
  = Raise IndexError.
Proof. reflexivity. Qed.

(** * Further properties *)

(** ** The pre-save pass as a whole *)

(** X10. The pre-save handlers reached on a save leave the class, the
    primary key and the two flags of the instance as they are; the pass
    raises nothing but [DoesNotExist], and that only on a hierarchical
    record whose parent key names no row. *)
Theorem pre_save_send_frame (s : Store) (instance : Instance) (w : World) :
  (exists instance' w',
      pre_save_send s instance w = (Ok instance', w')
      /\ cls instance' = cls instance
      /\ pk instance' = pk instance
      /\ is_live instance' = is_live instance
      /\ is_featured instance' = is_featured instance)
  \/ (exists w',
         pre_save_send s instance w = (Raise DoesNotExist, w')
         /\ dangling_parent s instance).
Proof.
  destruct (pre_save_send_cases s instance w)
    as (i1 & w1 & _ & [(E & Hd & _) | (i' & E & Hc & Hp & Hl & Hf & _)]).
  - right. exists w1. split; assumption.
  - left. exists i', w1. repeat split; assumption.
Qed.

(** X11. On an instance of a model that has none of [DateAuditModel],
    [BaseSortedModel] and [BaseHierarchyModel] among its bases the pass
    changes nothing and does not read the clock. *)
Theorem pre_save_send_plain (s : Store) (instance : Instance) (w : World) :
  isinstance instance DateAuditModel = false ->
  isinstance instance BaseSortedModel = false ->
  isinstance instance BaseHierarchyModel = false ->
  pre_save_send s instance w = (Ok instance, w).
Proof.
  intros Ha Hs Hh. rewrite pre_save_send_unfold.
  unfold date_set, bind. rewrite Ha. unfold ret at 1.
  unfold set_sort_order. rewrite Hs. unfold ret at 1.
  unfold check_tree. rewrite Hh. reflexivity.
Qed.

Lemma pre_save_send_plain_witness :
  pre_save_send (mkStore [] [])
                (mkInstance (mkModel "Tag" [BaseNamedModel]) None None None None
                            false false None (Some 3))
                sample_world
  = (Ok (mkInstance (mkModel "Tag" [BaseNamedModel]) None None None None
                    false false None (Some 3)),
     sample_world).
Proof. apply pre_save_send_plain; reflexivity. Defined.

(** X12. On every save of a sortable record [set_sort_order], the second
    handler of the pre-save pass, leaves the record with a sort key: the
    one it had when that was set and not zero, and [0] otherwise.  The
    pass returns the record with this sort key; the one way it does not
    return is [check_tree] failing on a hierarchical record whose parent
    key names no row. *)
Theorem set_sort_order_on_save (s : Store) (instance : Instance) (w : World) :
  isinstance instance BaseSortedModel = true ->
  exists i1 w1 i2,
    date_set s instance w = (Ok i1, w1)
    /\ set_sort_order s i1 w1 = (Ok i2, w1)
    /\ sort_order i2
       = Some (match sort_order instance with
               | Some v => v
               | None => 0
               end)
    /\ ((exists instance',
            pre_save_send s instance w = (Ok instance', w1)
            /\ sort_order instance' = sort_order i2)
        \/ (pre_save_send s instance w = (Raise DoesNotExist, w1)
            /\ dangling_parent s instance)).
Proof.
  intros Hs.
  destruct (pre_save_send_cases s instance w) as (i1 & w1 & E1 & Hpass).
  destruct (date_set_run s instance w)
    as (i1' & w1' & E1' & C1 & _ & _ & _ & _ & S1 & _).
  rewrite E1 in E1'. injection E1' as <- <-.
  destruct (set_sort_order_run s i1 w1)
    as (i2 & E2 & _ & _ & _ & _ & _ & _ & _ & _ & S2).
  assert (Hso : sort_order i2
                = Some (match sort_order instance with
                        | Some v => v
                        | None => 0
                        end)).
  { rewrite S2. unfold isinstance in *. rewrite C1, Hs, S1. unfold truthy.
    destruct (sort_order instance) as [v|]; [|reflexivity].
    destruct (Z.eqb_spec v 0) as [-> | _]; reflexivity. }
  exists i1, w1, i2.
  split; [exact E1|]. split; [exact E2|]. split; [exact Hso|].
  destruct Hpass as [(E & Hd & _)
                    | (i' & E & _ & _ & _ & _ & _ & _ & _ & Hso' & _)].
  - right. split; assumption.
  - left. exists i'. split; [exact E|].
    rewrite Hso, Hso', Hs. unfold truthy.
    destruct (sort_order instance) as [v|]; [|reflexivity].
    destruct (Z.eqb_spec v 0) as [-> | _]; reflexivity.
Qed.

Lemma set_sort_order_on_save_witness :
  exists instance' w',
    pre_save_send (mkStore [] []) (set_sort_order_attr (slide 1 10) None) sample_world
    = (Ok instance', w')
    /\ sort_order instance' = Some 0.
Proof.
  destruct (set_sort_order_on_save (mkStore [] [])
              (set_sort_order_attr (slide 1 10) None) sample_world eq_refl)
    as (i1 & w1 & i2 & _ & _ & Hso & [(i' & E & Hso') | (E & _)]); [|discriminate].
  exists i', w1. split; [exact E | rewrite Hso'; exact Hso].
Defined.

(** X13. With a clock that does not run backwards, [date_set] leaves a
    record whose creation timestamp is not in the future with
    [creation_date <= last_updated], both set.  The pass returns the
    record with these two timestamps; the one way it does not return is
    [check_tree] failing on a hierarchical record whose parent key names
    no row. *)
Theorem creation_date_before_last_updated (s : Store) (instance : Instance)
        (w : World) :
  isinstance instance DateAuditModel = true ->
  monotone w ->
  (forall c, creation_date instance = Some c -> c <= current w) ->
  exists i1 w1 c u,
    date_set s instance w = (Ok i1, w1)
    /\ creation_date i1 = Some c
    /\ last_updated i1 = Some u
    /\ c <= u
    /\ ((exists instance',
            pre_save_send s instance w = (Ok instance', w1)
            /\ creation_date instance' = Some c
            /\ last_updated instance' = Some u)
        \/ (pre_save_send s instance w = (Raise DoesNotExist, w1)
            /\ dangling_parent s instance)).
Proof.
  intros Hi Hmono Hpast.
  destruct (pre_save_send_cases s instance w) as (i1 & w1 & E1 & Hpass).
  assert (Hdates : exists c u, creation_date i1 = Some c
                               /\ last_updated i1 = Some u /\ c <= u).
  { rewrite (date_set_audited s instance w Hi) in E1.
    destruct (creation_date instance) as [c|] eqn:Hcd.
    - inversion E1; subst. exists c, (current w). simpl. rewrite Hcd.
      repeat split. apply Hpast. reflexivity.
    - inversion E1; subst. exists (current w), (current (tick w)). simpl.
      repeat split. apply Hmono. }
  destruct Hdates as (c & u & Hc & Hu & Hcu).
  exists i1, w1, c, u.
  split; [exact E1|]. split; [exact Hc|]. split; [exact Hu|]. split; [exact Hcu|].
  destruct Hpass as [(E & Hd & _)
                    | (i' & E & _ & _ & _ & _ & _ & Hc' & Hl' & _)].
  - right. split; assumption.
  - left. exists i'. split; [exact E|]. split; congruence.
Qed.

Lemma sample_world_monotone : monotone sample_world.
Proof. intros n. simpl. lia. Qed.

Lemma creation_date_before_last_updated_witness :
  exists instance' w' c u,
    pre_save_send (mkStore [] []) (article 1 None true false) sample_world
    = (Ok instance', w')
    /\ creation_date instance' = Some c
    /\ last_updated instance' = Some u
    /\ c <= u.
Proof.
  destruct (creation_date_before_last_updated (mkStore [] [])
              (article 1 None true false) sample_world)
    as (i1 & w1 & c & u & _ & _ & _ & Hcu & [(i' & E & Hc & Hu) | (E & _)]).
  - reflexivity.
  - exact sample_world_monotone.
  - intros c Hc. injection Hc as <-. unfold current. simpl.
    unfold ticks_per_day. lia.
  - exists i', w1, c, u. repeat split; assumption.
  - discriminate.
Defined.

(** X14. The pass keeps the parent it finds in every other case: on a
    record that is not hierarchical, and on a hierarchical record whose
    parent key, if it has one, names a row of the table other than the
    record itself, and which has no key yet, the key [0], or no child. *)
Theorem check_tree_keeps_parent (s : Store) (instance : Instance) (w : World) :
  isinstance instance BaseHierarchyModel = false
  \/ ((forall p, parent instance = Some p ->
                 exists par, find (fun r => opt_is (pk r) p) (rows s) = Some par)
      /\ (forall k, pk instance = Some k -> parent instance <> Some k)
      /\ (forall k, pk instance = Some k -> k = 0 \/ children_count s k = 0%nat)) ->
  exists instance' w',
    pre_save_send s instance w = (Ok instance', w')
    /\ parent instance' = parent instance.
Proof.
  intros Hcase.
  destruct (pre_save_send_cases s instance w)
    as (i1 & w1 & _ & [(E & (Hh & p & Hp & Hf) & _)
                      | (i' & E & _ & _ & _ & _ & _ & _ & _ & _ & Hpar & _)]).
  - exfalso. destruct Hcase as [Hn | (Hres & _)]; [congruence|].
    destruct (Hres p Hp) as (par & Hpar). congruence.
  - exists i', w1. split; [exact E|]. rewrite Hpar.
    destruct (isinstance instance BaseHierarchyModel); [|reflexivity].
    destruct Hcase as [Hn | (_ & Hself & Hch)]; [discriminate|].
    unfold parent_after.
    assert (Hc : pk_and_children s instance = false).
    { unfold pk_and_children. destruct (pk instance) as [k|]; [|reflexivity].
      destruct (Hch k eq_refl) as [-> | Hz]; [reflexivity|].
      rewrite Hz. simpl. apply andb_false_r. }
    rewrite Hc. destruct (parent instance) as [p|] eqn:Hp; [|reflexivity].
    destruct (opt_is (pk instance) p) eqn:Ho; [|reflexivity].
    apply opt_is_true in Ho. exfalso. apply (Hself p Ho). reflexivity.
Qed.

Lemma check_tree_keeps_parent_witness :
  exists instance' w',
    pre_save_send (mkStore [category (Some 1) None] [])
                  (category None (Some 1)) sample_world
    = (Ok instance', w')
    /\ parent instance' = Some 1.
Proof.
  apply (check_tree_keeps_parent (mkStore [category (Some 1) None] [])
           (category None (Some 1)) sample_world).
  right. split; [|split].
  - intros p Hp. injection Hp as <-. eexists. reflexivity.
  - intros k Hk. discriminate.
  - intros k Hk. discriminate.
Defined.

(** ** Saving into a two-level forest *)

(** X15. Saving a hierarchical record whose key is not [0] under a parent
    that is a parentless row of the table (or under none) keeps the table
    a two-level forest: every parent named is a row, and no row with a
    child has a parent. *)
Theorem save_keeps_two_level (s : Store) (instance : Instance) (w : World) :
  isinstance instance BaseHierarchyModel = true ->
  two_level (rows s) ->
  pk instance <> Some 0 ->
  (forall p, parent instance = Some p ->
             (exists q, In q (rows s) /\ pk q = Some p)
             /\ (forall q, In q (rows s) -> pk q = Some p -> parent q = None)) ->
  exists s' instance' w',
    save s instance w = (Ok (s', instance'), w')
    /\ In instance' (rows s')
    /\ two_level (rows s').
Proof.
  intros Hh Htwo Hnz Hpar.
  destruct (save_cases s instance w Hh)
    as [(w' & E & (_ & p & Hp & Hf) & _)
       | (l' & i' & w' & E & Hp' & Hpk' & Hin' & Hold & Hkeep & _)].
  { exfalso. destruct (Hpar p Hp) as [(q & Hq & Hqk) _].
    destruct (find_pk_some _ q p Hq Hqk) as (par & Hfp & _). congruence. }
  exists (mkStoreOf l' (images s) (image_declaration s)), i', w'.
  split; [exact E|]. simpl rows.
  split; [exact Hin'|].
  (* the parent the saved row ends up with is the one it came with *)
  assert (Hkept : forall p, parent i' = Some p -> parent instance = Some p).
  { intros p Hp. rewrite Hp' in Hp. unfold parent_after in Hp.
    destruct (pk_and_children s instance); [discriminate|].
    destruct (parent instance) as [p0|]; [|discriminate].
    destruct (opt_is (pk instance) p0); [discriminate | exact Hp]. }
  (* the saved row is not its own parent *)
  assert (Hnotself : forall p, parent i' = Some p -> pk i' <> Some p).
  { intros p Hp Hk. pose proof (Hkept p Hp) as Hpi.
    destruct (pk instance) as [k|] eqn:Hki.
    - rewrite Hpk' in Hk. injection Hk as ->.
      rewrite Hp' in Hp. unfold parent_after in Hp.
      destruct (pk_and_children s instance); [discriminate|].
      rewrite Hpi, Hki in Hp. unfold opt_is in Hp.
      rewrite Z.eqb_refl in Hp. discriminate.
    - rewrite Hpk' in Hk. injection Hk as <-.
      destruct (Hpar _ Hpi) as [(q & Hq & Hqk) _].
      pose proof (fresh_pk_above _ _ _ Hq Hqk). lia. }
  (* a saved row that some old row names as parent has no parent *)
  assert (Hroot : forall r p, In r (rows s) -> parent r = Some p ->
                              pk i' = Some p -> parent i' = None).
  { intros r p Hr Hrp Hk.
    destruct (pk instance) as [k|] eqn:Hki.
    - rewrite Hpk' in Hk. injection Hk as ->.
      rewrite Hp'. unfold parent_after.
      assert (Hk0 : p <> 0) by congruence.
      rewrite (pk_and_children_true s instance p Hki Hk0
                 (children_count_pos s r p Hr Hrp)).
      reflexivity.
    - rewrite Hpk' in Hk. injection Hk as <-.
      destruct (Htwo r _ Hr Hrp) as [(q & Hq & Hqk) _].
      pose proof (fresh_pk_above _ _ _ Hq Hqk). lia. }
  intros r p Hr Hrp. split.
  - (* the parent named is a row *)
    assert (Hex : exists q, In q (rows s) /\ pk q = Some p).
    { destruct (Hold r Hr) as [-> | [Hr0 _]].
      - apply (Hpar p). apply Hkept. exact Hrp.
      - apply (Htwo r p Hr0 Hrp). }
    destruct Hex as (q & Hq & Hqk).
    destruct (pk i') as [k'|] eqn:Hik.
    + destruct (Z.eq_dec k' p) as [-> | Hkp].
      * exists i'. split; assumption.
      * exists q. split; [apply Hkeep; [exact Hq | congruence] | exact Hqk].
    + exists q. split; [apply Hkeep; [exact Hq | congruence] | exact Hqk].
  - (* and is without parent *)
    intros q Hq Hqk.
    destruct (Hold r Hr) as [-> | [Hr0 _]]; destruct (Hold q Hq) as [-> | [Hq0 _]].
    + exfalso. apply (Hnotself p Hrp Hqk).
    + destruct (Hpar p (Hkept p Hrp)) as [_ Hall]. apply Hall; assumption.
    + apply (Hroot r p Hr0 Hrp Hqk).
    + destruct (Htwo r p Hr0 Hrp) as [_ Hall]. apply Hall; assumption.
Qed.

Lemma save_keeps_two_level_witness :
  exists s' instance' w',
    save (mkStore [category (Some 1) None; category (Some 2) (Some 1)] [])
         (category None (Some 1)) sample_world
    = (Ok (s', instance'), w')
    /\ In instance' (rows s')
    /\ two_level (rows s').
Proof.
  apply (save_keeps_two_level
           (mkStore [category (Some 1) None; category (Some 2) (Some 1)] [])
           (category None (Some 1)) sample_world).
  - reflexivity.
  - intros r p [<- | [<- | []]] Hp; [discriminate|].
    injection Hp as <-. split.
    + exists (category (Some 1) None). split; [left; reflexivity | reflexivity].
    + intros q [<- | [<- | []]] Hq; [reflexivity | discriminate].
  - discriminate.
  - intros p Hp. injection Hp as <-. split.
    + exists (category (Some 1) None). split; [left; reflexivity | reflexivity].
    + intros q [<- | [<- | []]] Hq; [reflexivity | discriminate].
Defined.

(** ** More on the managers *)

Lemma date_of_mono (t t' : Z) : t <= t' -> date_of t <= date_of t'.
Proof.
  intros Ht. unfold date_of. apply Z.div_le_mono; [reflexivity | exact Ht].
Qed.

(** X17. On an unchanged table the live view only grows with time: a row
    that is live at one instant is live at every later one. *)
Theorem live_view_grows (s : Store) (w1 w2 : World) (live1 live2 : list Instance) :
  current w1 <= current w2 ->
  get_query_set LiveManager s w1 = (Ok live1, tick w1) ->
  get_query_set LiveManager s w2 = (Ok live2, tick w2) ->
  incl live1 live2.
Proof.
  intros Ht H1 H2. simpl get_query_set in H1, H2.
  rewrite LiveManager_run in H1, H2.
  injection H1 as <-. injection H2 as <-.
  intros r Hr. apply filter_In in Hr. destruct Hr as [Hin Hc].
  apply filter_In. split; [exact Hin|].
  apply andb_true_iff in Hc. destruct Hc as [Hl Hd].
  apply andb_true_iff. split; [exact Hl|].
  unfold lte in *. destruct (publication_date r) as [d|]; [|discriminate].
  apply Z.leb_le in Hd. apply Z.leb_le.
  pose proof (date_of_mono _ _ Ht). lia.
Qed.

Lemma live_view_grows_witness :
  incl [article 1 (Some 19000) true false]
       [article 1 (Some 19000) true false; article 2 (Some 20001) true false].
Proof.
  apply (live_view_grows
           (mkStore [article 1 (Some 19000) true false;
                     article 2 (Some 20001) true false] [])
           sample_world
           (mkWorld (fun n => Z.of_nat n * 1000000 + 1728143200000000) 0)).
  - unfold current. simpl. lia.
  - reflexivity.
  - reflexivity.
Defined.

Lemma live_rows_In (l : list Instance) (t : Z) (r : Instance) :
  In r (filter (fun r => Bool.eqb (is_live r) true
                         && lte (publication_date r) (date_of t)) l)
  <-> In r l /\ is_live r = true
      /\ exists d, publication_date r = Some d /\ d <= date_of t.
Proof.
  rewrite filter_In, andb_true_iff. unfold lte. split.
  - intros (Hin & Hl & Hd). split; [exact Hin|]. split.
    + destruct (is_live r); [reflexivity | discriminate].
    + destruct (publication_date r) as [d|]; [|discriminate].
      exists d. split; [reflexivity | apply Z.leb_le; exact Hd].
  - intros (Hin & Hl & d & Hp & Hd). split; [exact Hin|].
    rewrite Hl, Hp. split; [reflexivity | apply Z.leb_le; exact Hd].
Qed.

(** Where the result of [get_first] comes from. *)
Lemma get_first_source (self : Manager) (s : Store) (w w' : World) (x : Instance) :
  get_first self s w = (Ok x, w') ->
  exists t, (t = current w \/ t = current (tick w))
            /\ In x (filter (fun r => Bool.eqb (is_live r) true
                                      && lte (publication_date r) (date_of t))
                            (rows s)).
Proof.
  intros Hg.
  assert (Hkind : self = FeaturedManager
                  \/ (self = FeaturedManagerWithImages
                      /\ image_declaration s = model_named_Image)).
  { destruct self; try (unfold get_first, raise in Hg; discriminate); auto.
    right. split; [reflexivity|].
    destruct (image_declaration s) eqn:Hd; [|reflexivity].
    unfold get_first, try_except_IndexError, bind, get_query_set in Hg.
    rewrite (FeaturedManagerWithImages_raises s w Hd) in Hg. discriminate. }
  destruct (get_first_unfold self s w Hkind) as (featured & Hq & Hf).
  rewrite Hf in Hg. destruct featured as [|y rest].
  - exists (current (tick w)). split; [right; reflexivity|].
    unfold bind in Hg. rewrite LiveManager_run in Hg.
    destruct (filter _ (rows s)) as [|y rest]; [discriminate|].
    injection Hg as <- _. left. reflexivity.
  - exists (current w). split; [left; reflexivity|].
    injection Hg as <- _.
    assert (Hy : In y (y :: rest)) by (left; reflexivity).
    destruct Hkind as [-> | [-> Hd]]; simpl get_query_set in Hq.
    + rewrite FeaturedManager_run in Hq. injection Hq as Hq. rewrite <- Hq in Hy.
      apply filter_In in Hy. apply Hy.
    + rewrite (FeaturedManagerWithImages_run s w Hd) in Hq. injection Hq as Hq.
      rewrite <- Hq in Hy. unfold distinct in Hy. rewrite nodup_In in Hy.
      apply filter_image_notnull_In in Hy. destruct Hy as [Hy _].
      apply filter_In in Hy. apply Hy.
Qed.

(** X18. Whatever [get_first] returns is a row of the table that is live:
    its flag is set and its publication day has come by one of the two
    readings of the clock the call makes. *)
Theorem get_first_is_live (self : Manager) (s : Store) (w w' : World)
        (x : Instance) :
  get_first self s w = (Ok x, w') ->
  In x (rows s)
  /\ is_live x = true
  /\ exists d, publication_date x = Some d
               /\ (d <= date_of (current w) \/ d <= date_of (current (tick w))).
Proof.
  intros Hg.
  destruct (get_first_source self s w w' x Hg) as (t & Ht & Hx).
  apply live_rows_In in Hx. destruct Hx as (Hin & Hl & d & Hd & Hle).
  split; [exact Hin|]. split; [exact Hl|]. exists d. split; [exact Hd|].
  destruct Ht as [-> | ->]; [left | right]; exact Hle.
Qed.

Lemma get_first_is_live_witness :
  In (article 1 (Some 19000) true false)
     (rows (mkStore [article 1 (Some 19000) true false;
                     article 0 (Some 18000) true false] []))
  /\ is_live (article 1 (Some 19000) true false) = true.
Proof.
  destruct (get_first_is_live FeaturedManagerWithImages
              (mkStore [article 1 (Some 19000) true false;
                        article 0 (Some 18000) true false] [])
              sample_world (tick (tick sample_world))
              (article 1 (Some 19000) true false) eq_refl)
    as (Hin & Hl & _).
  split; assumption.
Defined.

(** X19. [get_first] raises [IndexError] only when both the view of the
    manager and the live view it falls back on are empty; the one other
    exception it lets through is the [FieldError] of
    [FeaturedManagerWithImages] querying a relation that is declared under
    [related_name='image_set']. *)
Theorem get_first_raises_only_when_empty (self : Manager) (s : Store)
        (w w' : World) (e : exn) :
  self = FeaturedManager \/ self = FeaturedManagerWithImages ->
  get_first self s w = (Raise e, w') ->
  (e = IndexError
   /\ get_query_set self s w = (Ok [], tick w)
   /\ get_query_set LiveManager s (tick w) = (Ok [], tick (tick w)))
  \/ (e = FieldError
      /\ self = FeaturedManagerWithImages
      /\ image_declaration s = related_name_image_set).
Proof.
  intros Hself Hg.
  assert (Hkind : (self = FeaturedManager
                   \/ (self = FeaturedManagerWithImages
                       /\ image_declaration s = model_named_Image))
                  \/ (self = FeaturedManagerWithImages
                      /\ image_declaration s = related_name_image_set)).
  { destruct Hself as [-> | ->]; [left; left; reflexivity|].
    destruct (image_declaration s); [right | left; right]; split; reflexivity. }
  destruct Hkind as [Hkind | [-> Hd]].
  - left. destruct (get_first_unfold self s w Hkind) as (featured & Hq & Hf).
    rewrite Hf in Hg. destruct featured as [|y rest]; [|discriminate].
    unfold bind in Hg. simpl get_query_set at 2. rewrite LiveManager_run in *.
    destruct (filter _ (rows s)) as [|y rest]; [|discriminate].
    injection Hg as <- _. repeat split. exact Hq.
  - right. unfold get_first, try_except_IndexError, bind, get_query_set in Hg.
    rewrite (FeaturedManagerWithImages_raises s w Hd) in Hg.
    injection Hg as <- _. repeat split. exact Hd.
Qed.

Lemma get_first_raises_only_when_empty_witness :
  get_query_set LiveManager
                (mkStore [article 1 (Some 19000) false true] [])
                (tick sample_world)
  = (Ok [], tick (tick sample_world)).
Proof.
  destruct (get_first_raises_only_when_empty FeaturedManager
              (mkStore [article 1 (Some 19000) false true] [])
              sample_world (tick (tick sample_world)) IndexError
              (or_introl eq_refl) eq_refl) as [(_ & _ & Hl) | (He & _)];
    [exact Hl | discriminate].
Defined.

(** ** Images *)

Lemma primary_image_unfold (s : Store) (self : Instance) (w : World) :
  primary_image s self w = (Ok (hd_error (images_of s self)), w).
Proof.
  unfold primary_image, try_except_IndexError, bind.
  destruct (images_of s self); reflexivity.
Qed.

(** X20. [primary_image] never raises; it is [None] exactly when the
    record has no image, that is when [image_count] is [0], and otherwise
    an image of the table that belongs to the record. *)
Theorem primary_image_some_or_none (s : Store) (self : Instance) (w : World) :
  exists r,
    primary_image s self w = (Ok r, w)
    /\ (r = None <-> image_count s self = 0%nat)
    /\ (forall im, r = Some im ->
          In im (images s) /\ pk self = Some (image_owner im)).
Proof.
  exists (hd_error (images_of s self)).
  split; [apply primary_image_unfold|]. unfold image_count. split.
  - destruct (images_of s self); simpl; split; congruence.
  - intros im Him.
    assert (Hin : In im (images_of s self)).
    { destruct (images_of s self) as [|x l]; [discriminate|].
      injection Him as ->. left. reflexivity. }
    unfold images_of in Hin. destruct (pk self) as [k|]; [|contradiction].
    apply filter_In in Hin. destruct Hin as [Hin Ho].
    apply Z.eqb_eq in Ho. split; [exact Hin | congruence].
Qed.

(** X21. Every record of the featured-with-images view has a primary
    image. *)
Theorem featured_with_images_has_primary_image (s : Store) (w w0 : World)
        (qs : list Instance) (r : Instance) :
  get_query_set FeaturedManagerWithImages s w = (Ok qs, tick w) ->
  In r qs ->
  exists im, primary_image s r w0 = (Ok (Some im), w0)
             /\ (1 <= image_count s r)%nat.
Proof.
  intros Hq Hr. simpl get_query_set in Hq.
  destruct (image_declaration s) eqn:Hd;
    [rewrite (FeaturedManagerWithImages_raises s w Hd) in Hq; discriminate|].
  rewrite (FeaturedManagerWithImages_run s w Hd) in Hq. injection Hq as <-.
  unfold distinct in Hr. rewrite nodup_In in Hr.
  apply filter_image_notnull_In in Hr. destruct Hr as [_ Hne].
  rewrite primary_image_unfold. unfold image_count.
  destruct (images_of s r) as [|im l]; [congruence|].
  exists im. split; [reflexivity | simpl; lia].
Qed.

Lemma featured_with_images_has_primary_image_witness :
  exists im,
    primary_image (mkStore [article 2 (Some 19001) true true]
                           [mkImage 7 2; mkImage 8 2])
                  (article 2 (Some 19001) true true) sample_world
    = (Ok (Some im), sample_world)
    /\ le 1 (image_count (mkStore [article 2 (Some 19001) true true]
                                  [mkImage 7 2; mkImage 8 2])
                         (article 2 (Some 19001) true true)).
Proof.
  apply (featured_with_images_has_primary_image
           (mkStore [article 2 (Some 19001) true true] [mkImage 7 2; mkImage 8 2])
           sample_world sample_world
           [article 2 (Some 19001) true true]).
  - reflexivity.
  - left. reflexivity.
Defined.


(** ** More on the neighbour lookup *)

Lemma append_empty_r (a : string) : (a ++ "")%string = a.
Proof. induction a as [|c a IH]; simpl; [reflexivity | rewrite IH; reflexivity]. Qed.

Lemma append_String_assoc (a b : string) (c : ascii) :
  ((a ++ String c "") ++ b)%string = (a ++ String c b)%string.
Proof. induction a as [|x a IH]; simpl; [reflexivity | rewrite IH; reflexivity]. Qed.

Lemma split_dunder_cons (c c' : ascii) (rest cur : string) :
  split_dunder (String c (String c' rest)) cur
  = if Ascii.eqb c "_" && Ascii.eqb c' "_"
    then cur :: split_dunder rest ""
    else split_dunder (String c' rest) (cur ++ String c "").
Proof. reflexivity. Qed.

Lemma split_dunder_plain (attr cur : string) :
  no_dunder attr = true -> split_dunder attr cur = [(cur ++ attr)%string].
Proof.
  revert cur. induction attr as [|c attr IH]; intros cur Hn; simpl.
  - rewrite append_empty_r. reflexivity.
  - simpl in Hn. destruct attr as [|c' rest].
    + reflexivity.
    + apply andb_true_iff in Hn. destruct Hn as [Hc Hn].
      apply negb_true_iff in Hc. rewrite Hc.
      rewrite (IH _ Hn), append_String_assoc. reflexivity.
Qed.

Lemma split_dunder_path (a b cur : string) :
  no_dunder (a ++ "_") = true ->
  split_dunder (a ++ "__" ++ b) cur = (cur ++ a)%string :: split_dunder b "".
Proof.
  revert cur. induction a as [|c a IH]; intros cur Hn.
  - simpl. rewrite append_empty_r. reflexivity.
  - change ((String c a ++ "_")%string) with (String c (a ++ "_")) in Hn.
    change ((String c a ++ "__" ++ b)%string) with (String c (a ++ "__" ++ b)).
    destruct a as [|c' a'].
    + simpl in Hn. rewrite !andb_true_r in Hn. apply negb_true_iff in Hn.
      cbn [append split_dunder].
      rewrite Ascii.eqb_refl, andb_true_r, Hn. reflexivity.
    + change ((String c' a' ++ "_")%string) with (String c' (a' ++ "_")) in *.
      change ((String c' a' ++ "__" ++ b)%string)
        with (String c' (a' ++ "__" ++ b)) in *.
      cbn [no_dunder] in Hn. apply andb_true_iff in Hn. destruct Hn as [Hc Hn].
      apply negb_true_iff in Hc.
      rewrite split_dunder_cons, Hc.
      change (String c' (a' ++ "__" ++ b)) with ((String c' a' ++ "__" ++ b)%string).
      rewrite (IH _ Hn), append_String_assoc. reflexivity.
Qed.

Section NeighbourLookupMore.

Context {Obj : Type} `{Attrs Obj}.

(** X1. An attribute name without ["__"] is read as it stands. *)
Theorem get_model_attr_plain (instance : Obj) (attr : string) :
  no_dunder attr = true ->
  get_model_attr instance attr = getattr instance attr.
Proof.
  intros Hn. unfold get_model_attr. rewrite (split_dunder_plain attr "" Hn).
  reflexivity.
Qed.

(** X2. A path [a__b] reads [b] on the object that [a] names, for [a]
    without ["__"] and not ending in an underscore. *)
Theorem get_model_attr_path (instance : Obj) (a b : string) :
  no_dunder (a ++ "_") = true ->
  get_model_attr instance (a ++ "__" ++ b)
  = get_model_attr (getattr instance a) b.
Proof.
  intros Hn. unfold get_model_attr. rewrite (split_dunder_path a b "" Hn).
  reflexivity.
Qed.

(** X3. On any view, sorted or not, a row the lookup returns is a row of
    the view that the total order puts strictly after the instance (before
    it for [prev]); it is never the instance itself. *)
Theorem next_or_prev_in_order_beyond (objects q : QuerySet Obj)
        (instance r : Obj) (prev : bool) (qs : QsArg Obj) :
  qs = qs_Manager q \/ (qs = qs_QuerySet q /\ qs_rows q <> []) ->
  Forall (fun e => e <> "") (model_ordering q) ->
  next_or_prev_in_order objects instance prev qs = Ok (Some r) ->
  In r (qs_rows q)
  /\ (if prev then total_order (model_ordering q) r instance
      else total_order (model_ordering q) instance r)
  /\ r <> instance.
Proof.
  intros Hqs Hord Hres.
  rewrite (next_or_prev_in_order_run objects q instance prev qs Hqs Hord) in Hres.
  injection Hres as Hres.
  assert (Hin : In r (filter (fun row =>
                     if prev
                     then precedes (model_ordering q ++ ["pk"]) row instance
                     else precedes (model_ordering q ++ ["pk"]) instance row)
                  (order_by (model_ordering q) prev (qs_rows q)))).
  { destruct (filter _ _) as [|x l]; [discriminate|].
    injection Hres as ->. left. reflexivity. }
  apply filter_In in Hin. destruct Hin as [Hin Hbeyond].
  split; [|split].
  - apply order_by_In in Hin. exact Hin.
  - unfold total_order. destruct prev; exact Hbeyond.
  - intros ->. destruct prev; rewrite precedes_irrefl in Hbeyond; discriminate.
Qed.

(** X4. On any view, and for an instance that is one of its rows (a
    stored row: its key and its ordering columns hold values), the lookup
    returns [None] exactly when no row of the view is strictly after the
    instance (before it for [prev]). *)
Theorem next_or_prev_in_order_none (objects q : QuerySet Obj)
        (instance : Obj) (prev : bool) (qs : QsArg Obj) :
  qs = qs_Manager q \/ qs = qs_QuerySet q ->
  Forall (fun e => e <> "") (model_ordering q) ->
  In instance (qs_rows q) ->
  next_or_prev_in_order objects instance prev qs = Ok None
  <-> forall x, In x (qs_rows q) ->
                ~ (if prev then total_order (model_ordering q) x instance
                   else total_order (model_ordering q) instance x).
Proof.
  intros Hqs Hord Hrow.
  assert (Hqs' : qs = qs_Manager q \/ (qs = qs_QuerySet q /\ qs_rows q <> [])).
  { destruct Hqs as [-> | ->]; [left; reflexivity | right].
    split; [reflexivity|]. intros He. rewrite He in Hrow. exact Hrow. }
  rewrite (next_or_prev_in_order_run objects q instance prev qs Hqs' Hord).
  unfold total_order. split.
  - intros Hres x Hx Hb. injection Hres as Hres.
    assert (Hin : In x (filter (fun row =>
                     if prev
                     then precedes (model_ordering q ++ ["pk"]) row instance
                     else precedes (model_ordering q ++ ["pk"]) instance row)
                  (order_by (model_ordering q) prev (qs_rows q)))).
    { apply filter_In. split.
      - apply order_by_In. exact Hx.
      - destruct prev; exact Hb. }
    destruct (filter _ _); [contradiction | discriminate].
  - intros Hnone. f_equal.
    destruct (filter _ _) as [|x l] eqn:Hf; [reflexivity|].
    assert (Hin : In x (x :: l)) by (left; reflexivity).
    rewrite <- Hf in Hin. apply filter_In in Hin. destruct Hin as [Hin Hb].
    exfalso. apply (Hnone x).
    + apply order_by_In in Hin. exact Hin.
    + destruct prev; exact Hb.
Qed.

Lemma build_q_list_empty_entry (instance : Obj) (lookup : Lookup)
      (fields : list string) :
  In "" fields ->
  forall prev_fields q_list,
    build_q_list instance lookup fields prev_fields q_list = Raise IndexError.
Proof.
  induction fields as [|e rest IH]; intros Hin prev_fields q_list; [contradiction|].
  destruct e as [|c tail]; [reflexivity|].
  destruct Hin as [Hin | Hin]; [discriminate|].
  simpl. destruct (Ascii.eqb c "-"); apply IH; exact Hin.
Qed.

(** X5. When the declared ordering has an empty entry the lookup raises
    [IndexError] whatever the instance, the direction and the rows: the
    entry is indexed outside the [try]. *)
Theorem next_or_prev_in_order_empty_ordering_entry (objects q : QuerySet Obj)
        (instance : Obj) (prev : bool) :
  In "" (model_ordering q) ->
  next_or_prev_in_order objects instance prev (qs_Manager q) = Raise IndexError.
Proof.
  intros Hin. unfold next_or_prev_in_order. cbn [not_qs qs_of].
  assert (Hf : In "" (model_ordering q ++ ["pk"]))
    by (apply in_or_app; left; exact Hin).
  destruct prev; rewrite (build_q_list_empty_entry _ _ _ Hf); reflexivity.
Qed.

Lemma qs_or_objects_effective (objects : QuerySet Obj) (qs : QsArg Obj) :
  (if not_qs (qs_or_objects qs objects) then objects
   else qs_of (qs_or_objects qs objects) objects)
  = (if not_qs qs then objects else qs_of qs objects).
Proof.
  unfold qs_or_objects. destruct (not_qs qs) eqn:Hn; [reflexivity|].
  rewrite Hn. reflexivity.
Qed.

(** X6. Without a query set, or with one that has no rows, the lookup
    runs on the default manager, with the ordering of its model; and the
    [qs or objects] of [BaseContentModel.prev] and [.next] adds nothing to
    what the lookup does with [qs] itself. *)
Theorem next_or_prev_in_order_default (objects : QuerySet Obj) (instance : Obj)
        (prev : bool) (qs : QsArg Obj) :
  (qs = qs_None \/ (exists q, qs = qs_QuerySet q /\ qs_rows q = []) ->
   next_or_prev_in_order objects instance prev qs
   = next_or_prev_in_order objects instance prev (qs_Manager objects))
  /\ BaseContentModel_prev objects instance qs
     = next_or_prev_in_order objects instance true qs
  /\ BaseContentModel_next objects instance qs
     = next_or_prev_in_order objects instance false qs
  /\ BaseContentModel_prev objects instance qs_None
     = DateAuditModel_prev objects instance
  /\ BaseContentModel_next objects instance qs_None
     = DateAuditModel_next objects instance.
Proof.
  split; [|repeat split].
  - intros [-> | (q & -> & Hq)]; unfold next_or_prev_in_order; simpl;
      [|rewrite Hq]; reflexivity.
  - unfold BaseContentModel_prev, next_or_prev_in_order.
    rewrite qs_or_objects_effective. reflexivity.
  - unfold BaseContentModel_next, next_or_prev_in_order.
    rewrite qs_or_objects_effective. reflexivity.
Qed.

(** X7. In a view whose rows the declared ordering alone puts in
    strictly increasing order (no two rows agree on all declared fields)
    [prev] undoes [next] and [next] undoes [prev]: the neighbour of the
    neighbour is the row the lookup started from. *)
Theorem next_or_prev_in_order_round_trip (objects q : QuerySet Obj)
        (instance r : Obj) (i : nat) (qs : QsArg Obj) :
  qs = qs_Manager q \/ qs = qs_QuerySet q ->
  Forall (fun e => e <> "") (model_ordering q) ->
  StronglySorted (fun a b => precedes (model_ordering q) a b = true) (qs_rows q) ->
  nth_error (qs_rows q) i = Some instance ->
  (next_or_prev_in_order objects instance false qs = Ok (Some r) ->
   next_or_prev_in_order objects r true qs = Ok (Some instance))
  /\ (next_or_prev_in_order objects instance true qs = Ok (Some r) ->
      next_or_prev_in_order objects r false qs = Ok (Some instance)).
Proof.
  intros Hqs Hord Hstrict Hnth.
  assert (Hsorted : StronglySorted (total_order (model_ordering q)) (qs_rows q)).
  { eapply StronglySorted_weaken; [|exact Hstrict].
    intros a b Hab. apply precedes_app. exact Hab. }
  split.
  - rewrite (next_in_order_nth objects q instance i qs Hqs Hord Hsorted Hnth).
    intros Hr. injection Hr as Hr.
    rewrite (prev_in_order_nth objects q r (S i) qs Hqs Hord Hstrict Hr), Hnth.
    reflexivity.
  - rewrite (prev_in_order_nth objects q instance i qs Hqs Hord Hstrict Hnth).
    intros Hr. injection Hr as Hr.
    destruct i as [|j]; [discriminate|].
    rewrite (next_in_order_nth objects q r j qs Hqs Hord Hsorted Hr), Hnth.
    reflexivity.
Qed.

End NeighbourLookupMore.

Lemma get_model_attr_plain_witness :
  get_model_attr (PyInstance (slide 1 10)) "sort_order" = PyInt 10.
Proof.
  rewrite (get_model_attr_plain (PyInstance (slide 1 10)) "sort_order" eq_refl).
  reflexivity.
Defined.

Lemma get_model_attr_path_witness :
  get_model_attr (PyInstance (slide 1 10)) "parent__sort_order"
  = get_model_attr (getattr (PyInstance (slide 1 10)) "parent") "sort_order".
Proof.
  exact (get_model_attr_path (PyInstance (slide 1 10)) "parent" "sort_order" eq_refl).
Defined.

Lemma next_or_prev_in_order_beyond_witness :
  In (PyInstance (slide 2 10))
     (map PyInstance [slide 3 20; slide 1 10; slide 2 10])
  /\ PyInstance (slide 2 10) <> PyInstance (slide 1 10).
Proof.
  destruct (next_or_prev_in_order_beyond slides
              (mkQuerySet (Meta_ordering BaseSortedModel)
                          (map PyInstance [slide 3 20; slide 1 10; slide 2 10]))
              (PyInstance (slide 1 10)) (PyInstance (slide 2 10)) false
              (qs_Manager
                 (mkQuerySet (Meta_ordering BaseSortedModel)
                             (map PyInstance [slide 3 20; slide 1 10; slide 2 10]))))
    as (Hin & _ & Hne).
  - left. reflexivity.
  - repeat constructor; discriminate.
  - reflexivity.
  - split; assumption.
Defined.

Lemma next_or_prev_in_order_none_witness :
  next_or_prev_in_order slides (PyInstance (slide 3 20)) false (qs_Manager slides)
  = Ok None.
Proof.
  apply (next_or_prev_in_order_none slides slides (PyInstance (slide 3 20)) false
           (qs_Manager slides)).
  - left. reflexivity.
  - repeat constructor; discriminate.
  - right. right. left. reflexivity.
  - intros x [<- | [<- | [<- | []]]]; unfold total_order; discriminate.
Defined.

Lemma next_or_prev_in_order_empty_ordering_entry_witness :
  next_or_prev_in_order slides (PyInstance (slide 1 10)) true
                        (qs_Manager (mkQuerySet ["sort_order"; ""] (qs_rows slides)))
  = Raise IndexError.
Proof.
  apply (next_or_prev_in_order_empty_ordering_entry slides
           (mkQuerySet ["sort_order"; ""] (qs_rows slides))).
  right. left. reflexivity.
Defined.

Lemma next_or_prev_in_order_default_witness :
  next_or_prev_in_order slides (PyInstance (slide 1 10)) false
                        (qs_QuerySet (mkQuerySet ["-sort_order"] []))
  = next_or_prev_in_order slides (PyInstance (slide 1 10)) false (qs_Manager slides).
Proof.
  destruct (next_or_prev_in_order_default slides (PyInstance (slide 1 10)) false
              (qs_QuerySet (mkQuerySet ["-sort_order"] []))) as (Hdef & _).
  apply Hdef. right. eexists. split; reflexivity.
Defined.

Lemma next_or_prev_in_order_round_trip_witness :
  next_or_prev_in_order articles (PyInstance (article 1 (Some 19000) true false))
                        true (qs_Manager articles)
  = Ok (Some (PyInstance (article 2 (Some 19001) true false))).
Proof.
  destruct (next_or_prev_in_order_round_trip articles articles
              (PyInstance (article 2 (Some 19001) true false))
              (PyInstance (article 1 (Some 19000) true false)) 1
              (qs_Manager articles)) as (Hback & _).
  - left. reflexivity.
  - repeat constructor; discriminate.
  - repeat (constructor; try reflexivity).
  - reflexivity.
  - apply Hback. reflexivity.
Defined.

(** ** The lookups on the managers *)

Lemma next_or_prev_in_order_member {Obj : Type} `{Attrs Obj}
      (objects q : QuerySet Obj) (instance r : Obj) (prev : bool) :
  next_or_prev_in_order objects instance prev (qs_Manager q) = Ok (Some r) ->
  In r (qs_rows q).
Proof.
  unfold next_or_prev_in_order. cbn [not_qs qs_of].
  destruct prev;
    destruct (build_q_list _ _ _ _ _) as [ql|e]; try discriminate;
    destruct (reduce_or ql) as [q0|e]; try discriminate;
    destruct (filter _ _) as [|x l] eqn:Hf; try discriminate;
    intros Hr; injection Hr as <-;
    assert (Hin : In x (x :: l)) by (left; reflexivity);
    rewrite <- Hf in Hin; apply filter_In in Hin; destruct Hin as [Hin _];
    apply order_by_In in Hin; exact Hin.
Qed.

Lemma neighbour_in_manager_member (ordering : list string) (m : Manager)
      (s : Store) (self : Instance) (prev : bool) (w w' : World) (r : PyObj) :
  neighbour_in_manager ordering m s self prev w = (Ok (Some r), w') ->
  exists i qs w0, r = PyInstance i
                  /\ get_query_set m s w = (Ok qs, w0)
                  /\ In i qs.
Proof.
  unfold neighbour_in_manager, manager_query_set, bind, lift, ret.
  destruct (get_query_set m s w) as [[qs|e] w0] eqn:Hq; [|discriminate].
  intros Hr. injection Hr as Hr _.
  apply next_or_prev_in_order_member in Hr. simpl in Hr.
  apply in_map_iff in Hr. destruct Hr as (i & Hi & Hin).
  exists i, qs, w0. split; [symmetry; exact Hi|]. split; [reflexivity | exact Hin].
Qed.

(** X8. [prev_live] and [next_live] only ever return a row of the table
    that is live at the reading of the clock they make, whether or not the
    record they start from is live. *)
Theorem neighbour_live_is_live (ordering : list string) (s : Store)
        (self : Instance) (w w' : World) (r : PyObj) :
  BaseContentModel_prev_live ordering s self w = (Ok (Some r), w')
  \/ BaseContentModel_next_live ordering s self w = (Ok (Some r), w') ->
  exists i, r = PyInstance i
            /\ In i (rows s)
            /\ is_live i = true
            /\ exists d, publication_date i = Some d /\ d <= date_of (current w).
Proof.
  intros Hr.
  assert (Hm : exists i qs w0, r = PyInstance i
                 /\ get_query_set LiveManager s w = (Ok qs, w0) /\ In i qs).
  { destruct Hr as [Hr | Hr]; exact (neighbour_in_manager_member _ _ _ _ _ _ _ _ Hr). }
  destruct Hm as (i & qs & w0 & Hi & Hq & Hin).
  simpl get_query_set in Hq. rewrite LiveManager_run in Hq. injection Hq as <- _.
  apply live_rows_In in Hin. exists i. split; [exact Hi | exact Hin].
Qed.


Lemma neighbour_live_is_live_witness :
  exists i, PyInstance (article 1 (Some 19000) true false) = PyInstance i
            /\ is_live i = true.
Proof.
  destruct (neighbour_live_is_live (Meta_ordering BaseContentModel)
              (mkStore [article 3 (Some 19002) false false;
                        article 2 (Some 19001) false false;
                        article 1 (Some 19000) true false] [])
              (article 3 (Some 19002) false false)
              sample_world (tick sample_world)
              (PyInstance (article 1 (Some 19000) true false)))
    as (i & Hi & _ & Hl & _).
  - right. reflexivity.
  - exists i. split; assumption.
Defined.



(** ** More on the ancestor walk *)

Lemma get_hierarchy_sound (depth : nat) (s : Store) (w w' : World) :
  forall self l,
    get_hierarchy depth s self true w = (Ok l, w') ->
    chain s self l /\ (List.length l <= depth)%nat /\ w' = w.
Proof.
  induction depth as [|d IH]; intros self l Hg; [discriminate|].
  simpl in Hg. unfold bind, get_parent in Hg.
  destruct (parent self) as [p|] eqn:Hp.
  - destruct (find _ (rows s)) as [par|] eqn:Hf; [|discriminate].
    unfold ret at 1 in Hg.
    destruct (get_hierarchy d s par true w) as [[h|e] w1] eqn:Hh; [|discriminate].
    injection Hg as <- <-.
    destruct (IH par h Hh) as (Hc & Hlen & Hw).
    split; [|split].
    + eapply chain_child; eassumption.
    + rewrite length_app. simpl. lia.
    + exact Hw.
  - injection Hg as <- <-. split; [|split].
    + apply chain_root. exact Hp.
    + simpl. lia.
    + reflexivity.
Qed.

(** X22. The walk returns a list exactly when that list is the chain of
    ancestors of the record, from a record without parent down to the
    record itself, and the chain fits in the allowed call depth. *)
Theorem get_hierarchy_iff_chain (depth : nat) (s : Store) (self : Instance)
        (l : list Instance) (w : World) :
  get_hierarchy depth s self true w = (Ok l, w)
  <-> chain s self l /\ (List.length l <= depth)%nat.
Proof.
  split.
  - intros Hg. destruct (get_hierarchy_sound depth s w w self l Hg) as (Hc & Hl & _).
    split; assumption.
  - intros [Hc Hl]. apply (get_hierarchy_of_chain s w self l Hc depth Hl).
Qed.

Lemma chain_ends (s : Store) (self : Instance) (l : list Instance) :
  chain s self l ->
  exists root rest, l = root :: rest /\ parent root = None /\ last l root = self.
Proof.
  induction 1 as [r Hp | r p par l Hp Hf Hc IH].
  - exists r, []. repeat split. exact Hp.
  - destruct IH as (root & rest & -> & Hroot & _).
    exists root, (rest ++ [r]). split; [reflexivity|]. split; [exact Hroot|].
    change (root :: rest ++ [r]) with ((root :: rest) ++ [r]).
    apply last_last.
Qed.

(** X23. Whenever the walk returns, the first record of the list is a
    top-level record, one without parent, and the last is the record the
    walk started from. *)
Theorem get_hierarchy_top_level (depth : nat) (s : Store) (self : Instance)
        (l : list Instance) (w w' : World) :
  get_hierarchy depth s self true w = (Ok l, w') ->
  exists root rest,
    l = root :: rest /\ parent root = None /\ last l root = self.
Proof.
  intros Hg. destruct (get_hierarchy_sound depth s w w' self l Hg) as (Hc & _).
  apply (chain_ends s self l Hc).
Qed.

Lemma get_hierarchy_top_level_witness :
  exists root rest,
    [category (Some 1) None; category (Some 2) (Some 1)] = root :: rest
    /\ parent root = None
    /\ last [category (Some 1) None; category (Some 2) (Some 1)] root
       = category (Some 2) (Some 1).
Proof.
  apply (get_hierarchy_top_level 5
           (mkStore [category (Some 1) None; category (Some 2) (Some 1)] [])
           (category (Some 2) (Some 1)) _ sample_world sample_world).
  reflexivity.
Defined.

(** X24. With [include_self=False] the walk does what it does with
    [include_self=True], raising the same exception or returning the same
    list without its last record. *)
Theorem get_hierarchy_without_self (depth : nat) (s : Store) (self : Instance)
        (w : World) :
  get_hierarchy depth s self false w
  = match get_hierarchy depth s self true w with
    | (Ok l, w') => (Ok (removelast l), w')
    | (Raise e, w') => (Raise e, w')
    end.
Proof.
  destruct depth as [|d]; [reflexivity|].
  simpl. unfold bind.
  destruct (get_parent s self w) as [[[par|]|e] w1]; try reflexivity.
  destruct (get_hierarchy d s par true w1) as [[h|e] w2]; [|reflexivity].
  unfold ret. rewrite removelast_last, app_nil_r. reflexivity.
Qed.

(** X25. In a two-level forest the walk from a row of the table needs two
    nested calls at most and returns the row alone or its parent followed
    by the row. *)
Theorem get_hierarchy_two_level (s : Store) (self : Instance) (w : World)
        (depth : nat) :
  two_level (rows s) ->
  In self (rows s) ->
  (2 <= depth)%nat ->
  (parent self = None /\ get_hierarchy depth s self true w = (Ok [self], w))
  \/ (exists par, In par (rows s)
                  /\ parent self = pk par
                  /\ parent par = None
                  /\ get_hierarchy depth s self true w = (Ok [par; self], w)).
Proof.
  intros Htwo Hin Hd.
  destruct depth as [|[|d]]; try lia.
  destruct (parent self) as [p|] eqn:Hp.
  - right. destruct (Htwo self p Hin Hp) as [(q & Hq & Hqk) Hroots].
    destruct (find_pk_some _ q p Hq Hqk) as (par & Hf & Hpin & Hpk).
    exists par. split; [exact Hpin|]. split; [symmetry; exact Hpk|].
    pose proof (Hroots par Hpin Hpk) as Hroot. split; [exact Hroot|].
    apply (get_hierarchy_child s self par p w true (S d) [par] Hp Hf).
    apply get_hierarchy_root. exact Hroot.
  - left. split; [reflexivity|]. apply get_hierarchy_root. exact Hp.
Qed.

Lemma get_hierarchy_two_level_witness :
  exists par,
    parent par = None
    /\ get_hierarchy 2
         (mkStore [category (Some 1) None; category (Some 2) (Some 1)] [])
         (category (Some 2) (Some 1)) true sample_world
       = (Ok [par; category (Some 2) (Some 1)], sample_world).
Proof.
  destruct (get_hierarchy_two_level
              (mkStore [category (Some 1) None; category (Some 2) (Some 1)] [])
              (category (Some 2) (Some 1)) sample_world 2)
    as [[Hp _] | (par & _ & _ & Hroot & Hg)].
  - intros r p [<- | [<- | []]] Hp; [discriminate|].
    injection Hp as <-. split.
    + exists (category (Some 1) None). split; [left; reflexivity | reflexivity].
    + intros q [<- | [<- | []]] Hq; [reflexivity | discriminate].
  - right. left. reflexivity.
  - apply le_n.
  - discriminate.
  - exists par. split; assumption.
Defined.

Lemma get_hierarchy_self_parent_witness :
  get_hierarchy 1000 (mkStore [category (Some 0) (Some 0)] [])
                (category (Some 0) (Some 0)) true sample_world
  = (Raise RuntimeError, sample_world).
Proof.
  apply (get_hierarchy_self_parent (mkStore [category (Some 0) (Some 0)] [])
           (category (Some 0) (Some 0)) 0 sample_world 1000 true);
    reflexivity.
Defined.
